(** * Server generator: validation, resolution and emission

    A shallow embedding of [generate_server.js]: the functions
    [validateConfig], [parseNodes], [generateServerCode],
    [generateRouteMessage] and [generateServer], over a model of the
    JavaScript values that [JSON.parse] can hand to them.

    Modelling conventions.
    - A JavaScript value is a [value]; [VUndef] is what reading an absent
      property gives.  JSON numbers are taken to be integers of magnitude
      below 10^21.
    - A string is a [string]; case conversion is modelled on ASCII
      characters only, where it acts on the letters A-Z and a-z, and the
      statements about it are limited to such characters.
    - Two objects or arrays read from different places of a parsed document
      are never the same reference, so strict equality between them is
      false; on primitives it is equality of the values.
    - An object is the list of its own properties in enumeration order,
      each name once.
    - A thrown exception is an [Err] result; every property read on [null]
      or [undefined] throws a [TypeError].
    - Reading the input file and writing the output file are left out: a
      run starts from the parsed document and ends with the content of the
      output file. *)

From Stdlib Require Import String Ascii List ZArith Bool.
From Stdlib Require Import Numbers.DecimalString.
Import ListNotations.

Set Warnings "-register-all".

Open Scope list_scope.
Open Scope string_scope.

(** ** Results of computations that can throw *)

Inductive error : Type :=
| Error (message : string)      (* [throw new Error(message)] *)
| TypeError.                    (* raised by the engine itself *)

Inductive result (A : Type) : Type :=
| Ok (a : A)
| Err (e : error).

Arguments Ok {A} a.
Arguments Err {A} e.

Definition bind {A B : Type} (m : result A) (k : A -> result B) : result B :=
  match m with
  | Ok a => k a
  | Err e => Err e
  end.

Notation "x <- m ;; k" := (bind m (fun x => k))
  (at level 61, m at next level, right associativity).

(** [xs.forEach(x => body)] where the body updates a state and may throw. *)
Fixpoint forEach {A S : Type} (body : S -> A -> result S) (xs : list A) (s : S)
  : result S :=
  match xs with
  | [] => Ok s
  | x :: xs' => s' <- body s x ;; forEach body xs' s'
  end.

(** [xs.find(x => p(x))] where the predicate may throw. *)
Fixpoint findM {A : Type} (p : A -> result bool) (xs : list A)
  : result (option A) :=
  match xs with
  | [] => Ok None
  | x :: xs' => b <- p x ;; if b then Ok (Some x) else findM p xs'
  end.

(** [xs.findIndex(x => p(x))]; [None] stands for [-1]. *)
Fixpoint findIndex {A : Type} (p : A -> bool) (xs : list A) : option nat :=
  match xs with
  | [] => None
  | x :: xs' => if p x then Some 0 else option_map S (findIndex p xs')
  end.

(** ** Text constants *)

Definition dquote : ascii := Ascii false true false false false true false false.
Definition dq : string := String dquote EmptyString.
Definition nl : string := String (Ascii false true false true false false false false) EmptyString.

(** [quoted s] is [s] between double quotes, with nothing escaped. *)
Definition quoted (s : string) : string := dq ++ s ++ dq.

(** ** JavaScript values *)

Inductive value : Type :=
| VUndef
| VNull
| VBool (b : bool)
| VNum (n : Z)
| VStr (s : string)
| VArr (items : list value)
| VObj (fields : list (string * value)).

(** [!!v] *)
Definition truthy (v : value) : bool :=
  match v with
  | VUndef | VNull => false
  | VBool b => b
  | VNum n => negb (n =? 0)%Z
  | VStr s => negb (s =? EmptyString)
  | VArr _ | VObj _ => true
  end.

Definition nullish (v : value) : bool :=
  match v with
  | VUndef | VNull => true
  | _ => false
  end.

Fixpoint lookup (k : string) (fields : list (string * value)) : value :=
  match fields with
  | [] => VUndef
  | (k', v) :: rest => if k' =? k then v else lookup k rest
  end.

(** [v.k] for a value that is neither [null] nor [undefined], and a name [k]
    among those the program reads ([nodes], [id], [target], [properties],
    [type], [endpoint], [method], [auth_required], [admin_required],
    [allowed_origins], [log_requests]): none of them is defined on a
    primitive or on an array. *)
Definition prop (v : value) (k : string) : value :=
  match v with
  | VObj fields => lookup k fields
  | _ => VUndef
  end.

(** [v.k] in general: throws on [null] and [undefined]. *)
Definition get (v : value) (k : string) : result value :=
  if nullish v then Err TypeError else Ok (prop v k).

(** [a === b] for values read from a parsed document. *)
Definition strict_eq (a b : value) : bool :=
  match a, b with
  | VUndef, VUndef => true
  | VNull, VNull => true
  | VBool x, VBool y => Bool.eqb x y
  | VNum x, VNum y => (x =? y)%Z
  | VStr x, VStr y => (x =? y)
  | _, _ => false
  end.

Definition is_string (s : string) (v : value) : bool := strict_eq v (VStr s).

(** [Array.isArray(v)] *)
Definition isArray (v : value) : bool :=
  match v with
  | VArr _ => true
  | _ => false
  end.

(** ** String operations *)

Definition is_upper (c : ascii) : bool :=
  let n := nat_of_ascii c in ((65 <=? n) && (n <=? 90))%nat.

Definition is_lower (c : ascii) : bool :=
  let n := nat_of_ascii c in ((97 <=? n) && (n <=? 122))%nat.

Definition lower_char (c : ascii) : ascii :=
  if is_upper c then ascii_of_nat (nat_of_ascii c + 32) else c.

Definition upper_char (c : ascii) : ascii :=
  if is_lower c then ascii_of_nat (nat_of_ascii c - 32) else c.

Fixpoint map_string (f : ascii -> ascii) (s : string) : string :=
  match s with
  | EmptyString => EmptyString
  | String c s' => String (f c) (map_string f s')
  end.

Definition toLowerCase (s : string) : string := map_string lower_char s.
Definition toUpperCase (s : string) : string := map_string upper_char s.

(** [s.charAt(0)] *)
Definition charAt0 (s : string) : string :=
  match s with
  | EmptyString => EmptyString
  | String c _ => String c EmptyString
  end.

(** [s.slice(1)] and [s.substring(1)] *)
Definition slice1 (s : string) : string :=
  match s with
  | EmptyString => EmptyString
  | String _ s' => s'
  end.

(** [s.startsWith('/')] *)
Definition startsWithSlash (s : string) : bool :=
  match s with
  | String c _ => Ascii.eqb c "/"%char
  | EmptyString => false
  end.

(** [parts.join(sep)] *)
Fixpoint join (sep : string) (parts : list string) : string :=
  match parts with
  | [] => EmptyString
  | [p] => p
  | p :: rest => p ++ sep ++ join sep rest
  end.

(** ** The two failures raised by the validator *)

Definition ConfigShapeError : error :=
  Error ("Invalid configuration: " ++ quoted "nodes" ++ " array is required").

Definition MissingEntryError : error :=
  Error ("Invalid configuration: Entry node with type " ++ quoted "entry"
         ++ " is required").

(** ** [validateConfig] *)

(** The callback [node => node.properties && node.properties.type === 'entry']. *)
Definition isEntry (node : value) : result bool :=
  properties <- get node "properties" ;;
  Ok (truthy properties && is_string "entry" (prop properties "type")).

Definition validateConfig (config : value) : result unit :=
  nodes <- get config "nodes" ;;
  if negb (truthy nodes) || negb (isArray nodes) then Err ConfigShapeError
  else
    match nodes with
    | VArr items =>
        entryNode <- findM isEntry items ;;
        match entryNode with
        | Some n => if truthy n then Ok tt else Err MissingEntryError
        | None => Err MissingEntryError
        end
    | _ => Err TypeError
    end.

(** ** The structured representation built by [parseNodes] *)

Record route : Type := mkRoute {
  id : value;
  endpoint : value;
  method : value;
  authRequired : bool;
  adminRequired : bool
}.

(** The object [result]: [cors_origin] is [cors.options.origin] (absent when
    [VUndef]); [auth.routes] is never written nor read and is left out. *)
Record parsedConfig : Type := mkParsed {
  cors_enabled : bool;
  cors_origin : value;
  auth_enabled : bool;
  adminAuth_enabled : bool;
  adminAuth_routes : list value;
  logging_enabled : bool;
  routes : list route
}.

Definition emptyResult : parsedConfig :=
  mkParsed false VUndef false false [] false [].

Definition setCors (origin : value) (r : parsedConfig) : parsedConfig :=
  mkParsed true origin (auth_enabled r) (adminAuth_enabled r)
           (adminAuth_routes r) (logging_enabled r) (routes r).

Definition enableAuth (r : parsedConfig) : parsedConfig :=
  mkParsed (cors_enabled r) (cors_origin r) true (adminAuth_enabled r)
           (adminAuth_routes r) (logging_enabled r) (routes r).

Definition enableAdminAuth (r : parsedConfig) : parsedConfig :=
  mkParsed (cors_enabled r) (cors_origin r) (auth_enabled r) true
           (adminAuth_routes r) (logging_enabled r) (routes r).

Definition enableLogging (r : parsedConfig) : parsedConfig :=
  mkParsed (cors_enabled r) (cors_origin r) (auth_enabled r)
           (adminAuth_enabled r) (adminAuth_routes r) true (routes r).

Definition pushRoute (rt : route) (r : parsedConfig) : parsedConfig :=
  mkParsed (cors_enabled r) (cors_origin r) (auth_enabled r)
           (adminAuth_enabled r) (adminAuth_routes r) (logging_enabled r)
           (routes r ++ [rt])%list.

Definition when (b : bool) (f : parsedConfig -> parsedConfig)
  (r : parsedConfig) : parsedConfig :=
  if b then f r else r.

(** [v !== false] *)
Definition notFalse (v : value) : bool :=
  match v with
  | VBool false => false
  | _ => true
  end.

(** [v || d] *)
Definition orElse (v d : value) : value := if truthy v then v else d.

Definition routeOf (idv properties : value) : route :=
  mkRoute idv
          (prop properties "endpoint")
          (orElse (prop properties "method") (VStr "GET"))
          (notFalse (prop properties "auth_required"))
          (truthy (prop properties "admin_required")).

(** Body of the first [nodes.forEach]. *)
Definition firstPass (res : parsedConfig) (node : value) : result parsedConfig :=
  if nullish node then Err TypeError     (* [const { id, properties } = node] *)
  else
    let idv := prop node "id" in
    let properties := prop node "properties" in
    if negb (truthy properties) then Ok res
    else if is_string "middleware" (prop properties "type") then
      Ok (when (truthy (prop properties "log_requests")) enableLogging
         (when (truthy (prop properties "admin_required")) enableAdminAuth
         (when (truthy (prop properties "auth_required")) enableAuth
         (when (truthy (prop properties "allowed_origins"))
               (setCors (prop properties "allowed_origins")) res))))
    else if truthy (prop properties "endpoint") then
      Ok (pushRoute (routeOf idv properties) res)
    else Ok res.

(** [Array.isArray(t) ? t : [t]] *)
Definition targetIds (target : value) : list value :=
  match target with
  | VArr items => items
  | _ => [target]
  end.

(** The callback [n => n.id === targetId]. *)
Definition hasId (targetId : value) (n : value) : result bool :=
  i <- get n "id" ;; Ok (strict_eq i targetId).

(** [targetNode && targetNode.properties && targetNode.properties.endpoint] *)
Definition bearsEndpoint (targetNode : option value) : bool :=
  match targetNode with
  | Some t =>
      truthy t && truthy (prop t "properties")
      && truthy (prop (prop t "properties") "endpoint")
  | None => false
  end.

Definition setAdmin (r : route) : route :=
  mkRoute (id r) (endpoint r) (method r) (authRequired r) true.

Fixpoint updateAt {A : Type} (f : A -> A) (i : nat) (xs : list A) : list A :=
  match xs, i with
  | [], _ => []
  | x :: xs', 0 => f x :: xs'
  | x :: xs', S j => x :: updateAt f j xs'
  end.

(** [routes[i].adminRequired = true; adminAuth.routes.push(routes[i].endpoint)] *)
Definition markAdmin (i : nat) (r : parsedConfig) : result parsedConfig :=
  match nth_error (routes r) i with
  | Some rt =>
      Ok (mkParsed (cors_enabled r) (cors_origin r) (auth_enabled r)
                   (adminAuth_enabled r) (adminAuth_routes r ++ [endpoint rt])%list
                   (logging_enabled r) (updateAt setAdmin i (routes r)))
  | None => Err TypeError
  end.

(** Body of [targetIds.forEach]. *)
Definition markTarget (nodes : list value) (res : parsedConfig)
  (targetId : value) : result parsedConfig :=
  targetNode <- findM (hasId targetId) nodes ;;
  if bearsEndpoint targetNode then
    match findIndex (fun r => strict_eq (id r) targetId) (routes res) with
    | Some routeIndex => markAdmin routeIndex res
    | None => Ok res
    end
  else Ok res.

(** Body of the second [nodes.forEach]. *)
Definition secondPass (nodes : list value) (res : parsedConfig) (node : value)
  : result parsedConfig :=
  properties <- get node "properties" ;;
  if truthy properties && is_string "middleware" (prop properties "type") then
    if truthy (prop properties "admin_required") && truthy (prop node "target")
    then forEach (markTarget nodes) (targetIds (prop node "target")) res
    else Ok res
  else Ok res.

Definition parseNodes (nodes : list value) : result parsedConfig :=
  res <- forEach firstPass nodes emptyResult ;;
  forEach (secondPass nodes) nodes res.

(** ** [JSON.stringify] *)

Definition hexDigit (n : nat) : ascii :=
  if (n <? 10)%nat then ascii_of_nat (48 + n) else ascii_of_nat (87 + n).

(** The escape of one character inside a JSON string literal. *)
Definition escapeChar (c : ascii) : string :=
  let n := nat_of_ascii c in
  if Ascii.eqb c dquote then "\" ++ dq
  else if Ascii.eqb c "\"%char then "\\"
  else if (n =? 8)%nat then "\b"
  else if (n =? 9)%nat then "\t"
  else if (n =? 10)%nat then "\n"
  else if (n =? 12)%nat then "\f"
  else if (n =? 13)%nat then "\r"
  else if (n <? 32)%nat then
    "\u00" ++ String (hexDigit (n / 16)) (String (hexDigit (n mod 16)) EmptyString)
  else String c EmptyString.

Fixpoint escapeString (s : string) : string :=
  match s with
  | EmptyString => EmptyString
  | String c s' => escapeChar c ++ escapeString s'
  end.

Definition jsonString (s : string) : string := dq ++ escapeString s ++ dq.

(** The digits of an integer, which is what the engine prints for an
    integer of magnitude below 10^21; beyond that it prints an exponent
    form, which is not modelled. *)
Definition numberToString (n : Z) : string := NilZero.string_of_int (Z.to_int n).

(** [JSON.stringify(v)]; [None] is the result [undefined].  The fields of an
    object are listed in property enumeration order. *)
Fixpoint stringify (v : value) : option string :=
  match v with
  | VUndef => None
  | VNull => Some "null"
  | VBool true => Some "true"
  | VBool false => Some "false"
  | VNum n => Some (numberToString n)
  | VStr s => Some (jsonString s)
  | VArr items =>
      Some ("[" ++ join ","
              (map (fun x => match stringify x with
                             | Some t => t
                             | None => "null"
                             end) items) ++ "]")
  | VObj fields =>
      Some ("{" ++ join ","
              (flat_map (fun kv => match stringify (snd kv) with
                                   | Some t => [jsonString (fst kv) ++ ":" ++ t]
                                   | None => []
                                   end) fields) ++ "}")
  end.

(** A value interpolated in a template literal after [JSON.stringify]. *)
Definition stringifyText (v : value) : string :=
  match stringify v with
  | Some t => t
  | None => "undefined"
  end.

(** [Array.isArray(v) && v.includes('*')] *)
Definition includesStar (v : value) : bool :=
  match v with
  | VArr items => existsb (is_string "*") items
  | _ => false
  end.

(** ** [generateRouteMessage] *)

Definition generateRouteMessage (endpoint : string) : string :=
  let routeName := if startsWithSlash endpoint then slice1 endpoint else endpoint in
  if routeName =? "login" then "Login successful"
  else if routeName =? "signup" then "Signup successful"
  else if routeName =? "signout" then "Signout successful"
  else if routeName =? "user" then "User data"
  else if routeName =? "admin" then "Admin data"
  else if routeName =? "home" then "Welcome to Home Page"
  else if routeName =? "about" then "About us"
  else if routeName =? "news" then "Latest news"
  else if routeName =? "blogs" then "Blogs list"
  else toUpperCase (charAt0 routeName) ++ slice1 routeName ++ " resource".

(** ** [generateServerCode] *)

Definition requireExpress : string :=
  "const express = require(" ++ quoted "express" ++ ");" ++ nl.

Definition requireCors : string :=
  "const cors = require(" ++ quoted "cors" ++ ");" ++ nl.

Definition createApp : string := "const app = express();" ++ nl ++ nl.

Definition originText (origin : value) : string :=
  if isArray origin && includesStar origin then quoted "*"
  else stringifyText origin.

Definition useCors (origin : value) : string :=
  "app.use(cors({ origin: " ++ originText origin ++ " }));" ++ nl.

Definition useJson : string := "app.use(express.json());" ++ nl ++ nl.

Definition authMiddlewareDef : string :=
  "const authMiddleware = (req, res, next) => {" ++ nl ++
  "  if (!req.headers.authorization) {" ++ nl ++
  "    return res.status(401).json({ message: " ++ quoted "Unauthorized" ++ " });" ++ nl ++
  "  }" ++ nl ++
  "  next();" ++ nl ++
  "};" ++ nl ++ nl.

Definition adminMiddlewareDef : string :=
  "const adminMiddleware = (req, res, next) => {" ++ nl ++
  "  if (req.headers.authorization !== " ++ quoted "admin" ++ ") {" ++ nl ++
  "    return res.status(403).json({ message: " ++ quoted "Forbidden" ++ " });" ++ nl ++
  "  }" ++ nl ++
  "  next();" ++ nl ++
  "};" ++ nl ++ nl.

Definition loggingMiddlewareDef : string :=
  "const loggingMiddleware = (req, res, next) => {" ++ nl ++
  "  console.log(`[${new Date().toISOString()}] ${req.method} ${req.url}`);" ++ nl ++
  "  next();" ++ nl ++
  "};" ++ nl ++ nl.

Definition listen : string :=
  nl ++ "app.listen(3000, () => console.log(" ++
  quoted "Server running on port 3000" ++ "));" ++ nl.

Definition optional (b : bool) (s : string) : string :=
  if b then s else EmptyString.

(** The array [middlewares] of one route. *)
Definition middlewares (pc : parsedConfig) (rt : route) : list string :=
  ((if authRequired rt && auth_enabled pc then ["authMiddleware"] else [])
   ++ (if adminRequired rt && adminAuth_enabled pc then ["adminMiddleware"] else [])
   ++ (if logging_enabled pc then ["loggingMiddleware"] else []))%list.

Definition handler (endpoint : string) : string :=
  "(req, res) => res.json({ message: " ++ quoted (generateRouteMessage endpoint)
  ++ " }));" ++ nl.

(** The text [routeCode] of one route.  [route.method.toLowerCase()] and
    [endpoint.startsWith] throw when the field is not a string. *)
Definition routeCode (pc : parsedConfig) (rt : route) : result string :=
  match method rt with
  | VStr m =>
      match endpoint rt with
      | VStr e =>
          let mws := middlewares pc rt in
          Ok ("app." ++ toLowerCase m ++ "(" ++ quoted e ++ ", "
              ++ (if (0 <? length mws)%nat then join ", " mws ++ ", "
                  else EmptyString)
              ++ handler e)
      | _ => Err TypeError
      end
  | _ => Err TypeError
  end.

(** The text accumulated in [code] before the routes are visited. *)
Definition preamble (pc : parsedConfig) : string :=
  requireExpress
  ++ optional (cors_enabled pc) requireCors
  ++ createApp
  ++ optional (cors_enabled pc) (useCors (cors_origin pc))
  ++ useJson
  ++ optional (auth_enabled pc) authMiddlewareDef
  ++ optional (adminAuth_enabled pc) adminMiddlewareDef
  ++ optional (logging_enabled pc) loggingMiddlewareDef.

Definition generateServerCode (pc : parsedConfig) : result string :=
  let code := preamble pc in
  code <- forEach (fun code rt => routeCode' <- routeCode pc rt ;;
                                  Ok (code ++ routeCode'))
                  (routes pc) code ;;
  Ok (code ++ listen).

(** ** [generateServer] *)

(** What is left of a run: the content of the output file, if it exists, and
    the failure reported before [process.exit(1)], if any. *)
Record world : Type := mkWorld {
  outputFile : option string;
  failure : option error
}.

Section Pipeline.

Variable resolve : list value -> result parsedConfig.
Variable emit : parsedConfig -> result string.

(** The body of the [try] block, from the parsed document to the text
    handed to [fs.writeFileSync]. *)
Definition generate (config : value) : result string :=
  _ <- validateConfig config ;;
  nodes <- get config "nodes" ;;
  parsed <- match nodes with
            | VArr items => resolve items
            | _ => Err TypeError
            end ;;
  emit parsed.

Definition runGenerate (config : value) (w : world) : world :=
  match generate config with
  | Ok serverCode => mkWorld (Some serverCode) None
  | Err e => mkWorld (outputFile w) (Some e)
  end.

End Pipeline.

Definition generateServer : value -> world -> world :=
  runGenerate parseNodes generateServerCode.

(** ** Vocabulary for the statements *)

Definition notNull (v : value) : Prop := nullish v = false.

Definition nodeId (node : value) : value := prop node "id".
Definition properties (node : value) : value := prop node "properties".

(** [properties.type === 'middleware'], on a node that has properties. *)
Definition isMiddleware (node : value) : bool :=
  truthy (properties node)
  && is_string "middleware" (prop (properties node) "type").

(** A middleware node whose property [k] is truthy. *)
Definition declares (k : string) (node : value) : bool :=
  isMiddleware node && truthy (prop (properties node) k).

(** The nodes that reach the [else if (properties.endpoint)] branch. *)
Definition isRouteNode (node : value) : bool :=
  truthy (properties node)
  && negb (is_string "middleware" (prop (properties node) "type"))
  && truthy (prop (properties node) "endpoint").

Definition routeNodes (nodes : list value) : list value :=
  filter isRouteNode nodes.

(** The record pushed for a route node by the first pass. *)
Definition recordOf (node : value) : route :=
  routeOf (nodeId node) (properties node).

(** The target ids the second pass visits for a node: none when
    [node.target] is falsy. *)
Definition adminTargets (node : value) : list value :=
  if truthy (prop node "target") then targetIds (prop node "target") else [].

(** Some admin middleware node lists the id of [node] in its target. *)
Definition targetedByAdmin (nodes : list value) (node : value) : bool :=
  existsb (fun m => declares "admin_required" m
                    && existsb (strict_eq (nodeId node)) (adminTargets m))
          nodes.

(** No two values of the list are strictly equal. *)
Fixpoint distinct (ids : list value) : Prop :=
  match ids with
  | [] => True
  | i :: rest => (forall j, In j rest -> strict_eq i j = false) /\ distinct rest
  end.

(** No two nodes of the sequence have strictly equal ids. *)
Definition uniqueIds (nodes : list value) : Prop :=
  distinct (map nodeId nodes).

(** The target ids the second pass visits for a node, all conditions of
    the loop body included. *)
Definition adminIds (node : value) : list value :=
  if declares "admin_required" node then adminTargets node else [].

(** What the second pass never changes in a route. *)
Definition core (r : route) : value * value * value * bool :=
  (id r, endpoint r, method r, authRequired r).

(** What the second pass never changes in the result. *)
Definition stable (res res' : parsedConfig) : Prop :=
  cors_enabled res' = cors_enabled res
  /\ cors_origin res' = cors_origin res
  /\ auth_enabled res' = auth_enabled res
  /\ adminAuth_enabled res' = adminAuth_enabled res
  /\ logging_enabled res' = logging_enabled res
  /\ map core (routes res') = map core (routes res).

(** The effect of visiting the target ids [T] when route ids are distinct:
    every route whose id is among them is marked, and its endpoint is
    recorded. *)
Definition markIf (T : list value) (r : route) : route :=
  if existsb (strict_eq (id r)) T then setAdmin r else r.

Definition marked (T : list value) (res res' : parsedConfig) : Prop :=
  routes res' = map (markIf T) (routes res)
  /\ incl (adminAuth_routes res) (adminAuth_routes res')
  /\ (forall r, In r (routes res) -> existsb (strict_eq (id r)) T = true ->
      In (endpoint r) (adminAuth_routes res')).

(** The routes of a result are those of the route nodes of [nodes]. *)
Definition consistent (nodes : list value) (res : parsedConfig) : Prop :=
  map id (routes res) = map nodeId (routeNodes nodes).

(** The routes of a model all have a string for method and endpoint. *)
Definition textual (rt : route) : bool :=
  match method rt, endpoint rt with
  | VStr _, VStr _ => true
  | _, _ => false
  end.

(** A document made of a node sequence only. *)
Definition document (nodes : list value) : value :=
  VObj [("nodes", VArr nodes)].

(** ** The claims on resolution, as predicates on a resolved model *)

(** Every model that resolution returns for [nodes] satisfies [P], and
    resolution does return one when no node is [null]. *)
Definition resolvesWith (nodes : list value) (P : parsedConfig -> Prop) : Prop :=
  (Forall notNull nodes -> exists m, parseNodes nodes = Ok m)
  /\ (forall m, parseNodes nodes = Ok m -> P m).

(** [properties.endpoint] is there, whatever it is. *)
Definition endpointPresent (node : value) : bool :=
  match prop (properties node) "endpoint" with
  | VUndef => false
  | _ => true
  end.

(** One record per node selected by [isRoute], in document order. *)
Definition oneRecordPer (isRoute : value -> bool) (nodes : list value)
  (m : parsedConfig) : Prop :=
  Forall2 (fun n r => id r = nodeId n
                      /\ endpoint r = prop (properties n) "endpoint"
                      /\ method r = orElse (prop (properties n) "method") (VStr "GET"))
          (filter isRoute nodes) (routes m).

(** A record is admin-required exactly when its node says so or an admin
    middleware node lists the node's id in its target. *)
Definition adminRule (nodes : list value) (m : parsedConfig) : Prop :=
  Forall2 (fun n r => adminRequired r
                      = truthy (prop (properties n) "admin_required")
                        || targetedByAdmin nodes n)
          (routeNodes nodes) (routes m).

(** The endpoint of every targeted route is in [adminAuth.routes]. *)
Definition adminRoutesRule (nodes : list value) (m : parsedConfig) : Prop :=
  forall n, In n (routeNodes nodes) -> targetedByAdmin nodes n = true ->
            In (prop (properties n) "endpoint") (adminAuth_routes m).

(** A record requires authentication unless its node says [false]. *)
Definition authRule (nodes : list value) (m : parsedConfig) : Prop :=
  Forall2 (fun n r =>
             (prop (properties n) "auth_required" = VBool false ->
              authRequired r = false)
             /\ (prop (properties n) "auth_required" <> VBool false ->
                 authRequired r = true))
          (routeNodes nodes) (routes m).

(** ** The claims on emission, in the words of the specification *)

(** The names whose condition holds, in the order given. *)
Definition attachedWhen (conds : list (string * bool)) : list string :=
  map fst (filter snd conds).

(** Middleware attached to a route as the specification words it: on the
    flags of the record, and on logging being enabled. *)
Definition statedAttached (pc : parsedConfig) (rt : route) : list string :=
  attachedWhen [ ("authMiddleware", authRequired rt);
                 ("adminMiddleware", adminRequired rt);
                 ("loggingMiddleware", logging_enabled pc) ].

(** The same, each of the two authentication middlewares being attached
    only when it is enabled in the model. *)
Definition gatedAttached (pc : parsedConfig) (rt : route) : list string :=
  attachedWhen [ ("authMiddleware", authRequired rt && auth_enabled pc);
                 ("adminMiddleware", adminRequired rt && adminAuth_enabled pc);
                 ("loggingMiddleware", logging_enabled pc) ].

Definition concatAll (parts : list string) : string :=
  fold_right append EmptyString parts.

(** One registration statement: the lower-cased method, the quoted endpoint,
    the attached names from left to right, then the handler answering the
    derived message. *)
Definition registration (attached : list string) (rt : route) : string :=
  match method rt, endpoint rt with
  | VStr m, VStr e =>
      "app." ++ toLowerCase m ++ "(" ++ quoted e
      ++ concatAll (map (fun name => ", " ++ name) attached)
      ++ ", (req, res) => res.json({ message: "
      ++ quoted (generateRouteMessage e) ++ " }));" ++ nl
  | _, _ => EmptyString
  end.

(** The table of known resource names. *)
Definition knownResources : list (string * string) :=
  [ ("login", "Login successful");
    ("signup", "Signup successful");
    ("signout", "Signout successful");
    ("user", "User data");
    ("admin", "Admin data");
    ("home", "Welcome to Home Page");
    ("about", "About us");
    ("news", "Latest news");
    ("blogs", "Blogs list") ].

Fixpoint assoc (k : string) (table : list (string * string)) : option string :=
  match table with
  | [] => None
  | (k', v) :: rest => if k' =? k then Some v else assoc k rest
  end.

Definition stripSlash (s : string) : string :=
  match s with
  | String "/" rest => rest
  | _ => s
  end.

(** The capital of each small letter, letter by letter. *)
Definition capitalTable : list (ascii * ascii) :=
  combine (list_ascii_of_string "abcdefghijklmnopqrstuvwxyz")
          (list_ascii_of_string "ABCDEFGHIJKLMNOPQRSTUVWXYZ").

Definition capitalOf (c : ascii) : ascii :=
  match find (fun p => Ascii.eqb (fst p) c) capitalTable with
  | Some p => snd p
  | None => c
  end.

Definition capitalize (s : string) : string :=
  match s with
  | EmptyString => EmptyString
  | String c rest => String (capitalOf c) rest
  end.

(** The first character, if any, is an ASCII character. *)
Definition asciiFirst (s : string) : bool :=
  match s with
  | EmptyString => true
  | String c _ => (nat_of_ascii c <? 128)%nat
  end.

(** The message of an endpoint as the specification words it. *)
Definition statedMessage (endpoint : string) : string :=
  let name := stripSlash endpoint in
  match assoc name knownResources with
  | Some sentence => sentence
  | None => capitalize name ++ " resource"
  end.

(** The escapes of a JSON string literal, by character code. *)
Definition escapeTable : list (nat * string) :=
  [ (34, "\" ++ dq); (92, "\\"); (8, "\b"); (9, "\t"); (10, "\n");
    (12, "\f"); (13, "\r") ].

Definition hexOf (n : nat) : string :=
  match String.get n "0123456789abcdef" with
  | Some c => String c EmptyString
  | None => EmptyString
  end.

(** One character of a string inside a JSON literal: its escape if it has
    one, four hexadecimal digits if it is another control character, itself
    otherwise. *)
Definition statedEscape (c : ascii) : string :=
  let n := nat_of_ascii c in
  match find (fun p => (fst p =? n)%nat) escapeTable with
  | Some p => snd p
  | None => if (n <? 32)%nat
            then "\u00" ++ hexOf (n / 16) ++ hexOf (n mod 16)
            else String c EmptyString
  end.

(** A string as a literal between double quotes. *)
Definition statedLiteral (s : string) : string :=
  dq ++ concatAll (map statedEscape (list_ascii_of_string s)) ++ dq.

(** The items one after the other, a comma before each but the first. *)
Definition commaList (items : list string) : string :=
  match items with
  | [] => EmptyString
  | x :: rest => x ++ concatAll (map (fun y => "," ++ y) rest)
  end.

(** The literal list of the declared origins. *)
Definition statedOriginList (names : list string) : string :=
  "[" ++ commaList (map statedLiteral names) ++ "]".

(** A character that needs no escape in a literal. *)
Definition plainChar (c : ascii) : bool :=
  let n := nat_of_ascii c in
  ((32 <=? n) && negb (n =? 34) && negb (n =? 92))%nat.

(** An element of an array under [JSON.stringify]. *)
Definition elementText (v : value) : string :=
  match stringify v with
  | Some t => t
  | None => "null"
  end.

(** An entry node, as the validator's callback sees it. *)
Definition isEntryNode (node : value) : bool :=
  truthy (properties node) && is_string "entry" (prop (properties node) "type").

(** Every iteration of a loop over [xs], each giving a piece of text. *)
Fixpoint mapM {A B : Type} (f : A -> result B) (xs : list A) : result (list B) :=
  match xs with
  | [] => Ok []
  | x :: xs' => y <- f x ;; ys <- mapM f xs' ;; Ok (y :: ys)
  end.

(** ** Example documents *)

Definition node (i : string) (target : value) (props : list (string * value))
  : value :=
  VObj [("id", VStr i); ("target", target); ("properties", VObj props)].

Definition entry1 : value := node "1" VUndef [("type", VStr "entry")].

(** An authentication middleware and a single route [/user]. *)
Definition userNodes : list value :=
  [ entry1;
    node "2" VUndef [("type", VStr "middleware"); ("auth_required", VBool true)];
    node "3" VUndef [("endpoint", VStr "/user"); ("method", VStr "GET")] ].

(** An admin middleware targeting the route [/admin], a logging middleware,
    and a public route. *)
Definition adminNodes : list value :=
  [ entry1;
    node "4" (VArr [VStr "5"])
         [("type", VStr "middleware"); ("admin_required", VBool true)];
    node "6" VUndef [("type", VStr "middleware"); ("log_requests", VBool true)];
    node "5" VUndef [("endpoint", VStr "/admin")];
    node "7" VUndef [("endpoint", VStr "/home"); ("auth_required", VBool false)] ].

(** The id [1] is borne by the entry node and by a route. *)
Definition duplicateIdNodes : list value :=
  [ entry1;
    node "2" (VStr "1")
         [("type", VStr "middleware"); ("admin_required", VBool true)];
    node "1" VUndef [("endpoint", VStr "/x")] ].

(** A middleware node that also has an endpoint. *)
Definition middlewareEndpointNodes : list value :=
  [ entry1;
    node "2" VUndef [("type", VStr "middleware"); ("endpoint", VStr "/x")] ].

(** A route that asks for admin rights, and no middleware at all. *)
Definition ownAdminNodes : list value :=
  [ entry1;
    node "2" VUndef [("endpoint", VStr "/x"); ("admin_required", VBool true)] ].

(** A [null] after the entry node. *)
Definition nullNodes : list value := [ entry1; VNull ].

Definition emptyWorld : world := mkWorld None None.

(** The model resolved from [adminNodes]. *)
Definition adminModel : parsedConfig :=
  mkParsed false VUndef false true [VStr "/admin"] true
           [ mkRoute (VStr "5") (VStr "/admin") (VStr "GET") true true;
             mkRoute (VStr "7") (VStr "/home") (VStr "GET") false false ].

(** The model resolved from [ownAdminNodes]. *)
Definition ownAdminModel : parsedConfig :=
  mkParsed false VUndef false false [] false
           [ mkRoute (VStr "2") (VStr "/x") (VStr "GET") true true ].

(** A model with CORS enabled for every origin and no route. *)
Definition wildcardModel : parsedConfig :=
  mkParsed true (VArr [VStr "*"]) false false [] false [].

(** A model with CORS enabled for two origins and no route. *)
Definition originsModel : parsedConfig :=
  mkParsed true (VArr [VStr "http://a.example"; VStr "http://b.example"])
           false false [] false [].

(** A CORS middleware open to every origin, and one route. *)
Definition corsNodes : list value :=
  [ entry1;
    node "2" VUndef
         [("type", VStr "middleware"); ("allowed_origins", VArr [VStr "*"])];
    node "3" VUndef [("endpoint", VStr "/news")] ].

(** ** Further vocabulary *)

(** The origin recorded by the first pass: the [allowed_origins] of the
    last middleware node that declares one. *)
Definition lastCorsOrigin (nodes : list value) : value :=
  match find (declares "allowed_origins") (rev nodes) with
  | Some n => prop (properties n) "allowed_origins"
  | None => VUndef
  end.

(** A node that neither pass acts upon: not a middleware, not a route. *)
Definition isInert (node : value) : bool :=
  negb (isMiddleware node) && negb (isRouteNode node).

(** Every target id the second pass visits, in visiting order. *)
Definition visitedTargets (nodes : list value) : list value :=
  flat_map adminIds nodes.

(** A record is marked only with a cause, and a node's own flag is kept. *)
Definition adminJustified (nodes : list value) (m : parsedConfig) : Prop :=
  Forall2 (fun n r =>
             (truthy (prop (properties n) "admin_required") = true ->
              adminRequired r = true)
             /\ (adminRequired r = true ->
                 truthy (prop (properties n) "admin_required") = true
                 \/ targetedByAdmin nodes n = true))
          (routeNodes nodes) (routes m).

(** Every endpoint of [adminAuth.routes] is the endpoint of a record that
    is admin-required. *)
Definition adminRoutesSound (m : parsedConfig) : Prop :=
  forall e, In e (adminAuth_routes m) ->
            exists r, In r (routes m) /\ endpoint r = e /\ adminRequired r = true.

(** What relates a record of the first pass to the same record later in
    the second pass. *)
Definition markedWithCause (T : list value) (a b : route) : Prop :=
  core b = core a
  /\ (adminRequired a = true -> adminRequired b = true)
  /\ (adminRequired b = true ->
      adminRequired a = true \/ existsb (strict_eq (id a)) T = true).

(** What the second pass keeps true of its result, [r0] being the routes
    left by the first pass and [T] the target ids it visits. *)
Definition causeInvariant (T : list value) (r0 : list route)
  (res : parsedConfig) : Prop :=
  Forall2 (markedWithCause T) r0 (routes res)
  /\ adminRoutesSound res
  /\ (adminAuth_routes res <> [] -> T <> []).

(** ** The command line *)

(** The files, by path. *)
Definition disk : Type := string -> option string.

(** [fs.writeFileSync(path, content, 'utf8')], supposed to succeed. *)
Definition writeFile (path content : string) (d : disk) : disk :=
  fun p => if p =? path then Some content else d p.

(** How the process ends. *)
Inductive ending : Type :=
| Generated (outputPath : string)   (* the success line, exit status 0 *)
| Failed (e : error)                (* [console.error] and [process.exit(1)] *)
| Usage.                            (* the usage line and [process.exit(1)] *)

Section CommandLine.

(** [JSON.parse(fs.readFileSync(configPath, 'utf8'))], from the files. *)
Variable readConfig : disk -> string -> result value.

(** [generateServer(configPath, outputPath)] *)
Definition generateServerAt (configPath outputPath : string) (d : disk)
  : disk * ending :=
  match (config <- readConfig d configPath ;;
         generate parseNodes generateServerCode config) with
  | Ok serverCode => (writeFile outputPath serverCode d, Generated outputPath)
  | Err e => (d, Failed e)
  end.

(** The block run when the script is the main module; [args] is
    [process.argv.slice(2)]. *)
Definition main (args : list string) (d : disk) : disk * ending :=
  match args with
  | [] => (d, Usage)
  | configPath :: rest =>
      let outputPath :=
        match rest with
        | given :: _ => if given =? EmptyString then "server.js" else given
        | [] => "server.js"
        end in
      generateServerAt configPath outputPath d
  end.

End CommandLine.

(** ** What emission reads *)

(** What the emitter reads of a route. *)
Definition shown (r : route) : value * value * bool * bool :=
  (endpoint r, method r, authRequired r, adminRequired r).

(** * Properties *)

(** ** Strings and iteration *)

Lemma append_assoc (a b c : string) : (a ++ b) ++ c = a ++ (b ++ c).
Proof.
  induction a as [|ch a IH]; simpl; [reflexivity | now rewrite IH].
Qed.

Lemma append_empty_r (a : string) : a ++ EmptyString = a.
Proof.
  induction a as [|ch a IH]; simpl; [reflexivity | now rewrite IH].
Qed.

Lemma bind_ok {A B : Type} (m : result A) (k : A -> result B) (b : B) :
  bind m k = Ok b -> exists a, m = Ok a /\ k a = Ok b.
Proof.
  destruct m as [a|e]; simpl; intros H; [eauto | discriminate].
Qed.

Section ForEach.

Context {A S : Type}.
Variable body : S -> A -> result S.

(** A reflexive and transitive relation kept by every iteration is kept
    by the loop. *)
Lemma forEach_preserves (R : S -> S -> Prop) :
  (forall s, R s s) ->
  (forall s1 s2 s3, R s1 s2 -> R s2 s3 -> R s1 s3) ->
  forall xs,
  (forall s x s', In x xs -> body s x = Ok s' -> R s s') ->
  forall s s', forEach body xs s = Ok s' -> R s s'.
Proof.
  intros Hrefl Htrans xs.
  induction xs as [|x xs IH]; simpl; intros Hstep s s' H.
  - injection H as <-. apply Hrefl.
  - apply bind_ok in H as (s1 & H1 & H2).
    apply Htrans with s1.
    + apply (Hstep s x s1); auto.
    + apply IH; auto. intros; eapply Hstep; eauto.
Qed.

(** A loop whose iterations cannot throw does not throw. *)
Lemma forEach_total xs :
  (forall s x, In x xs -> exists s', body s x = Ok s') ->
  forall s, exists s', forEach body xs s = Ok s'.
Proof.
  induction xs as [|x xs IH]; simpl; intros Hstep s.
  - eauto.
  - destruct (Hstep s x (or_introl eq_refl)) as (s1 & H1).
    rewrite H1. simpl. apply IH. intros; apply Hstep; auto.
Qed.

(** A loop that returns has run every iteration without a throw. *)
Lemma forEach_ok_each (P : A -> Prop) xs :
  (forall s x, (exists s', body s x = Ok s') -> P x) ->
  forall s s', forEach body xs s = Ok s' -> Forall P xs.
Proof.
  intros HP. induction xs as [|x xs IH]; simpl; intros s s' H.
  - constructor.
  - apply bind_ok in H as (s1 & H1 & H2).
    constructor; [eapply HP; eauto | eapply IH; eauto].
Qed.

End ForEach.

Lemma findIndex_some {A : Type} (p : A -> bool) (xs : list A) (i : nat) :
  findIndex p xs = Some i ->
  exists x, nth_error xs i = Some x /\ p x = true.
Proof.
  revert i. induction xs as [|x xs IH]; simpl; intros i H; [discriminate|].
  destruct (p x) eqn:Hp.
  - injection H as <-. simpl. eauto.
  - destruct (findIndex p xs) as [j|]; simpl in H; [|discriminate].
    injection H as <-. simpl. apply IH. reflexivity.
Qed.

Lemma findM_pure {A : Type} (p : A -> result bool) (q : A -> bool) (xs : list A) :
  (forall x, In x xs -> p x = Ok (q x)) ->
  findM p xs = Ok (find q xs).
Proof.
  induction xs as [|x xs IH]; simpl; intros H; [reflexivity|].
  rewrite (H x (or_introl eq_refl)). simpl.
  destruct (q x); [reflexivity | apply IH; auto].
Qed.

(** ** The first pass *)

Lemma firstPass_total (res : parsedConfig) (node : value) :
  notNull node -> exists res', firstPass res node = Ok res'.
Proof.
  unfold notNull, firstPass. intros ->.
  destruct (negb (truthy (prop node "properties"))); eauto.
  destruct (is_string "middleware" _); eauto.
  destruct (truthy (prop _ "endpoint")); eauto.
Qed.

Lemma firstPass_notNull (res : parsedConfig) (node : value) :
  (exists res', firstPass res node = Ok res') -> notNull node.
Proof.
  unfold notNull, firstPass. intros (res' & H).
  destruct (nullish node); [discriminate | reflexivity].
Qed.

(** What one iteration of the first pass does to each field. *)
Lemma firstPass_step (res res' : parsedConfig) (node : value) :
  firstPass res node = Ok res' ->
  routes res' = (routes res ++ map recordOf (routeNodes [node]))%list
  /\ auth_enabled res' = auth_enabled res || declares "auth_required" node
  /\ adminAuth_enabled res' = adminAuth_enabled res || declares "admin_required" node
  /\ logging_enabled res' = logging_enabled res || declares "log_requests" node
  /\ cors_enabled res' = cors_enabled res || declares "allowed_origins" node
  /\ adminAuth_routes res' = adminAuth_routes res.
Proof.
  unfold firstPass, routeNodes, declares, isRouteNode, isMiddleware,
    recordOf, properties, nodeId.
  destruct (nullish node); [discriminate|].
  simpl filter.
  destruct (truthy (prop node "properties")); simpl.
  2:{ intros [= <-]. rewrite app_nil_r, !orb_false_r. repeat split. }
  destruct (is_string "middleware" _); simpl.
  - intros [= <-]. unfold when.
    destruct (truthy (prop _ "log_requests")),
             (truthy (prop _ "admin_required")),
             (truthy (prop _ "auth_required")),
             (truthy (prop _ "allowed_origins")); simpl;
      rewrite ?app_nil_r, ?orb_false_r, ?orb_true_r; repeat split.
  - destruct (truthy (prop _ "endpoint")); simpl; intros [= <-]; simpl;
      rewrite ?app_nil_r, ?orb_false_r; repeat split.
Qed.

Lemma firstLoop_spec (nodes : list value) :
  forall res res',
  forEach firstPass nodes res = Ok res' ->
  routes res' = (routes res ++ map recordOf (routeNodes nodes))%list
  /\ auth_enabled res' = auth_enabled res || existsb (declares "auth_required") nodes
  /\ adminAuth_enabled res' = adminAuth_enabled res || existsb (declares "admin_required") nodes
  /\ logging_enabled res' = logging_enabled res || existsb (declares "log_requests") nodes
  /\ cors_enabled res' = cors_enabled res || existsb (declares "allowed_origins") nodes
  /\ adminAuth_routes res' = adminAuth_routes res.
Proof.
  induction nodes as [|n nodes IH]; simpl forEach; intros res res' H.
  - injection H as <-. simpl. rewrite app_nil_r, !orb_false_r. repeat split.
  - apply bind_ok in H as (r1 & H1 & H2).
    apply firstPass_step in H1 as (Hr & Ha & Hd & Hl & Hc & Hx).
    apply IH in H2 as (Hr' & Ha' & Hd' & Hl' & Hc' & Hx').
    rewrite Hr', Ha', Hd', Hl', Hc', Hx', Hr, Ha, Hd, Hl, Hc, Hx.
    unfold routeNodes in *. simpl filter.
    repeat split; try (simpl existsb; rewrite orb_assoc; reflexivity).
    destruct (isRouteNode n); simpl; rewrite <- ?app_assoc; simpl;
      rewrite ?app_nil_r; reflexivity.
Qed.

(** ** Strict equality *)

Lemma strict_eq_right (a b t : value) :
  strict_eq a t = true -> strict_eq b t = true -> strict_eq a b = true.
Proof.
  destruct a, b, t; simpl; try discriminate; auto.
  - destruct b, b0, b1; simpl; auto.
  - rewrite !Z.eqb_eq. congruence.
  - rewrite !String.eqb_eq. congruence.
Qed.

Lemma distinct_filter_map {A : Type} (f : A -> value) (p : A -> bool) (xs : list A) :
  distinct (map f xs) -> distinct (map f (filter p xs)).
Proof.
  induction xs as [|x xs IH]; simpl; [auto|].
  intros [Hx Hd]. destruct (p x); simpl; [split|]; auto.
  intros j Hj. apply Hx.
  apply in_map_iff in Hj as (y & <- & Hy).
  apply in_map. apply filter_In in Hy. tauto.
Qed.

(** With distinct ids, the first element whose id equals [t] is any element
    whose id equals [t]. *)
Lemma find_distinct {A : Type} (f : A -> value) (t : value) (xs : list A) (x : A) :
  distinct (map f xs) -> In x xs -> strict_eq (f x) t = true ->
  find (fun y => strict_eq (f y) t) xs = Some x.
Proof.
  induction xs as [|a xs IH]; simpl; [tauto|].
  intros [Ha Hd] Hin Hx.
  destruct (strict_eq (f a) t) eqn:Hat.
  - destruct Hin as [->|Hin]; [reflexivity|].
    exfalso. specialize (Ha (f x) (in_map f _ _ Hin)).
    rewrite (strict_eq_right _ _ _ Hat Hx) in Ha. discriminate.
  - destruct Hin as [->|Hin]; [congruence|]. auto.
Qed.

Lemma findIndex_none {A : Type} (p : A -> bool) (xs : list A) :
  findIndex p xs = None <-> forall x, In x xs -> p x = false.
Proof.
  induction xs as [|a xs IH]; simpl.
  - split; [tauto | reflexivity].
  - destruct (p a) eqn:Hp.
    + split; [discriminate|]. intros H. rewrite (H a) in Hp; auto. discriminate.
    + destruct (findIndex p xs); simpl.
      * split; [discriminate|]. intros H.
        destruct IH as [_ IH]. discriminate IH. auto.
      * split; [|reflexivity]. intros _ x [<-|Hx]; [assumption|].
        apply IH; auto.
Qed.

(** ** The second pass: what it keeps, and that it cannot throw *)

Lemma hasId_pure (nodes : list value) (targetId : value) :
  Forall notNull nodes ->
  findM (hasId targetId) nodes
  = Ok (find (fun n => strict_eq (nodeId n) targetId) nodes).
Proof.
  intros Hnn. apply findM_pure. intros x Hx.
  rewrite Forall_forall in Hnn. specialize (Hnn x Hx).
  unfold hasId, get, nodeId. now rewrite Hnn.
Qed.

Lemma stable_refl (res : parsedConfig) : stable res res.
Proof. unfold stable. repeat split. Qed.

Lemma stable_trans (r1 r2 r3 : parsedConfig) :
  stable r1 r2 -> stable r2 r3 -> stable r1 r3.
Proof.
  unfold stable. intros (A1 & A2 & A3 & A4 & A5 & A6) (B1 & B2 & B3 & B4 & B5 & B6).
  repeat split; congruence.
Qed.

Lemma map_core_updateAt (i : nat) (rs : list route) :
  map core (updateAt setAdmin i rs) = map core rs.
Proof.
  revert i. induction rs as [|r rs IH]; intros [|i]; simpl; try reflexivity.
  now rewrite IH.
Qed.

Lemma markAdmin_stable (i : nat) (res res' : parsedConfig) :
  markAdmin i res = Ok res' -> stable res res'.
Proof.
  unfold markAdmin. destruct (nth_error (routes res) i); [|discriminate].
  intros [= <-]. unfold stable. simpl. rewrite map_core_updateAt.
  repeat split.
Qed.

Lemma markTarget_stable (nodes : list value) (res res' : parsedConfig)
  (targetId : value) :
  markTarget nodes res targetId = Ok res' -> stable res res'.
Proof.
  unfold markTarget. intros H.
  apply bind_ok in H as (tn & _ & H).
  destruct (bearsEndpoint tn).
  - destruct (findIndex _ _).
    + eapply markAdmin_stable; eauto.
    + injection H as <-. apply stable_refl.
  - injection H as <-. apply stable_refl.
Qed.

Lemma secondPass_stable (nodes : list value) (res res' : parsedConfig)
  (node : value) :
  secondPass nodes res node = Ok res' -> stable res res'.
Proof.
  unfold secondPass. intros H.
  apply bind_ok in H as (ps & _ & H).
  destruct (truthy ps && _).
  - destruct (truthy _ && truthy _).
    + revert H. apply forEach_preserves.
      * apply stable_refl.
      * apply stable_trans.
      * intros s x s' _. apply markTarget_stable.
    + injection H as <-. apply stable_refl.
  - injection H as <-. apply stable_refl.
Qed.

Lemma secondLoop_stable (nodes ns : list value) (res res' : parsedConfig) :
  forEach (secondPass nodes) ns res = Ok res' -> stable res res'.
Proof.
  apply forEach_preserves.
  - apply stable_refl.
  - apply stable_trans.
  - intros s x s' _. apply secondPass_stable.
Qed.

Lemma markTarget_total (nodes : list value) (res : parsedConfig)
  (targetId : value) :
  Forall notNull nodes -> exists res', markTarget nodes res targetId = Ok res'.
Proof.
  intros Hnn. unfold markTarget. rewrite (hasId_pure _ _ Hnn). simpl.
  destruct (bearsEndpoint _); [|eauto].
  destruct (findIndex _ _) as [i|] eqn:Hi; [|eauto].
  apply findIndex_some in Hi as (rt & Hrt & _).
  unfold markAdmin. rewrite Hrt. eauto.
Qed.

Lemma secondPass_total (nodes : list value) (res : parsedConfig) (node : value) :
  Forall notNull nodes -> notNull node ->
  exists res', secondPass nodes res node = Ok res'.
Proof.
  intros Hnn Hn. unfold secondPass, get. rewrite Hn. simpl.
  destruct (truthy _ && _); [|eauto].
  destruct (truthy _ && truthy _); [|eauto].
  apply forEach_total. intros s x _. now apply markTarget_total.
Qed.

(** Resolution returns exactly when no node is [null] or [undefined]. *)
Lemma parseNodes_total (nodes : list value) :
  Forall notNull nodes -> exists m, parseNodes nodes = Ok m.
Proof.
  intros Hnn. unfold parseNodes.
  destruct (forEach_total firstPass nodes) with (s := emptyResult) as (r1 & H1).
  { intros s x Hx. apply firstPass_total.
    rewrite Forall_forall in Hnn. auto. }
  rewrite H1. simpl.
  apply forEach_total. intros s x Hx. apply secondPass_total; auto.
  rewrite Forall_forall in Hnn. auto.
Qed.

Lemma parseNodes_notNull (nodes : list value) (m : parsedConfig) :
  parseNodes nodes = Ok m -> Forall notNull nodes.
Proof.
  unfold parseNodes. intros H. apply bind_ok in H as (r1 & H1 & _).
  revert H1. apply forEach_ok_each. intros s x. apply firstPass_notNull.
Qed.

(** The flags and the unmarked part of the routes of a resolved model. *)
Lemma parseNodes_flags (nodes : list value) (m : parsedConfig) :
  parseNodes nodes = Ok m ->
  map core (routes m) = map core (map recordOf (routeNodes nodes))
  /\ auth_enabled m = existsb (declares "auth_required") nodes
  /\ adminAuth_enabled m = existsb (declares "admin_required") nodes
  /\ logging_enabled m = existsb (declares "log_requests") nodes
  /\ cors_enabled m = existsb (declares "allowed_origins") nodes.
Proof.
  unfold parseNodes. intros H. apply bind_ok in H as (r1 & H1 & H2).
  apply firstLoop_spec in H1 as (Hr & Ha & Hd & Hl & Hc & _).
  apply secondLoop_stable in H2 as (S1 & S2 & S3 & S4 & S5 & S6).
  simpl in *. rewrite S6, S3, S4, S5, S1, Hr, Ha, Hd, Hl, Hc.
  repeat split.
Qed.

(** ** The second pass on distinct ids *)

Lemma markIf_id (T : list value) (r : route) : id (markIf T r) = id r.
Proof. unfold markIf. now destruct (existsb _ T). Qed.

Lemma markIf_endpoint (T : list value) (r : route) :
  endpoint (markIf T r) = endpoint r.
Proof. unfold markIf. now destruct (existsb _ T). Qed.

Lemma markIf_app (T1 T2 : list value) (r : route) :
  markIf T2 (markIf T1 r) = markIf (T1 ++ T2) r.
Proof.
  unfold markIf at 1. rewrite markIf_id.
  unfold markIf. rewrite existsb_app.
  destruct (existsb _ T1), (existsb _ T2); reflexivity.
Qed.

Lemma map_id_markIf (T : list value) (rs : list route) :
  map id (map (markIf T) rs) = map id rs.
Proof.
  rewrite map_map. apply map_ext. intros r. apply markIf_id.
Qed.

Lemma marked_nil (res : parsedConfig) : marked [] res res.
Proof.
  unfold marked. repeat split.
  - symmetry. rewrite <- (map_id (routes res)) at 2. now apply map_ext.
  - apply incl_refl.
  - simpl. discriminate.
Qed.

Lemma marked_app (T1 T2 : list value) (r1 r2 r3 : parsedConfig) :
  marked T1 r1 r2 -> marked T2 r2 r3 -> marked (T1 ++ T2) r1 r3.
Proof.
  intros (A1 & A2 & A3) (B1 & B2 & B3). repeat split.
  - rewrite B1, A1, map_map. apply map_ext. intros r. apply markIf_app.
  - eapply incl_tran; eauto.
  - intros r Hr. rewrite existsb_app.
    destruct (existsb _ T1) eqn:E1; simpl; intros E2.
    + apply B2. apply A3; auto.
    + rewrite <- (markIf_endpoint T1 r). apply B3.
      * rewrite A1. now apply in_map.
      * now rewrite markIf_id.
Qed.

Lemma marked_consistent (nodes T : list value) (res res' : parsedConfig) :
  marked T res res' -> consistent nodes res -> consistent nodes res'.
Proof.
  unfold consistent. intros (A1 & _) H. now rewrite A1, map_id_markIf.
Qed.

(** When route ids are distinct, marking the first route with a given id
    marks every route with that id. *)
Lemma updateAt_distinct (t : value) (rs : list route) (i : nat) :
  distinct (map id rs) ->
  findIndex (fun r => strict_eq (id r) t) rs = Some i ->
  updateAt setAdmin i rs = map (markIf [t]) rs.
Proof.
  revert i. induction rs as [|r rs IH]; simpl; intros i Hd H; [discriminate|].
  destruct Hd as [Hr Hd]. unfold markIf at 1. simpl existsb. rewrite orb_false_r.
  destruct (strict_eq (id r) t) eqn:Hrt.
  - injection H as <-. simpl. f_equal.
    rewrite <- (map_id rs) at 1. apply map_ext_in. intros r' Hr'.
    unfold markIf. simpl. rewrite orb_false_r.
    destruct (strict_eq (id r') t) eqn:Hr't; [|reflexivity].
    specialize (Hr (id r') (in_map id _ _ Hr')).
    rewrite (strict_eq_right _ _ _ Hrt Hr't) in Hr. discriminate.
  - destruct (findIndex _ rs) as [j|]; simpl in H; [|discriminate].
    injection H as <-. simpl. f_equal. now apply IH.
Qed.

Lemma routeNode_bearsEndpoint (n : value) :
  isRouteNode n = true -> bearsEndpoint (Some n) = true.
Proof.
  unfold isRouteNode, bearsEndpoint, properties.
  intros H. apply andb_prop in H as [H He]. apply andb_prop in H as [Hp _].
  rewrite Hp, He. destruct n; simpl in *; try discriminate. reflexivity.
Qed.

Lemma markTarget_marked (nodes : list value) (res res' : parsedConfig)
  (targetId : value) :
  Forall notNull nodes -> uniqueIds nodes -> consistent nodes res ->
  markTarget nodes res targetId = Ok res' -> marked [targetId] res res'.
Proof.
  intros Hnn Hu Hc. unfold markTarget. rewrite (hasId_pure _ _ Hnn). simpl.
  assert (Hd : distinct (map id (routes res))).
  { rewrite Hc. apply distinct_filter_map. exact Hu. }
  destruct (findIndex _ (routes res)) as [i|] eqn:Hi.
  - pose proof (findIndex_some _ _ _ Hi) as (r & Hnth & Hr).
    assert (Hin : In r (routes res)) by (eapply nth_error_In; eauto).
    assert (Hn : exists n, In n (routeNodes nodes) /\ nodeId n = id r).
    { apply (in_map id) in Hin. rewrite Hc in Hin.
      apply in_map_iff in Hin as (n & E & Hn). eauto. }
    destruct Hn as (n & Hn & En).
    apply filter_In in Hn as [Hn Hrn].
    rewrite (find_distinct nodeId targetId nodes n Hu Hn); [|now rewrite En].
    rewrite (routeNode_bearsEndpoint _ Hrn).
    unfold markAdmin. rewrite Hnth. intros [= <-]. unfold marked. simpl.
    repeat split.
    + now apply updateAt_distinct.
    + now apply incl_appl.
    + intros r' Hr'. rewrite orb_false_r. intros Hm.
      apply in_or_app. right. left.
      pose proof (find_distinct id targetId _ _ Hd Hin Hr) as F1.
      pose proof (find_distinct id targetId _ _ Hd Hr' Hm) as F2.
      congruence.
  - rewrite findIndex_none in Hi. intros H.
    assert (res' = res) as -> by (destruct (bearsEndpoint _); congruence).
    unfold marked. repeat split.
    + rewrite <- (map_id (routes res)) at 1. apply map_ext_in.
      intros r Hr. unfold markIf. simpl. now rewrite (Hi r Hr).
    + apply incl_refl.
    + intros r Hr. simpl. rewrite (Hi r Hr). discriminate.
Qed.

Lemma targets_marked (nodes T : list value) :
  Forall notNull nodes -> uniqueIds nodes ->
  forall res res', consistent nodes res ->
  forEach (markTarget nodes) T res = Ok res' -> marked T res res'.
Proof.
  intros Hnn Hu. induction T as [|t T IH]; simpl; intros res res' Hc H.
  - injection H as <-. apply marked_nil.
  - apply bind_ok in H as (r1 & H1 & H2).
    pose proof (markTarget_marked _ _ _ _ Hnn Hu Hc H1) as M1.
    apply (marked_app [t] T res r1 res' M1).
    apply IH; [eapply marked_consistent; eauto | assumption].
Qed.

Lemma secondPass_marked (nodes : list value) (res res' : parsedConfig)
  (node : value) :
  Forall notNull nodes -> uniqueIds nodes -> consistent nodes res ->
  secondPass nodes res node = Ok res' -> marked (adminIds node) res res'.
Proof.
  intros Hnn Hu Hc H. unfold secondPass in H.
  apply bind_ok in H as (ps & Hps & H).
  unfold get in Hps. destruct (nullish node); [discriminate|].
  injection Hps as <-.
  unfold adminIds, declares, isMiddleware, adminTargets, properties.
  destruct (truthy (prop node "properties") && _); simpl.
  - destruct (truthy (prop _ "admin_required")); simpl.
    + destruct (truthy (prop node "target")); simpl in *.
      * now apply (targets_marked nodes).
      * injection H as <-. apply marked_nil.
    + injection H as <-. apply marked_nil.
  - injection H as <-. apply marked_nil.
Qed.

Lemma secondLoop_marked (nodes ns : list value) :
  Forall notNull nodes -> uniqueIds nodes ->
  forall res res', consistent nodes res ->
  forEach (secondPass nodes) ns res = Ok res' ->
  marked (flat_map adminIds ns) res res'.
Proof.
  intros Hnn Hu. induction ns as [|n ns IH]; simpl; intros res res' Hc H.
  - injection H as <-. apply marked_nil.
  - apply bind_ok in H as (r1 & H1 & H2).
    pose proof (secondPass_marked _ _ _ _ Hnn Hu Hc H1) as M1.
    apply (marked_app _ _ res r1 res' M1).
    apply IH; [eapply marked_consistent; eauto | assumption].
Qed.

Lemma existsb_flat_map {A B : Type} (p : B -> bool) (f : A -> list B) (xs : list A) :
  existsb p (flat_map f xs) = existsb (fun x => existsb p (f x)) xs.
Proof.
  induction xs as [|x xs IH]; simpl; [reflexivity|].
  now rewrite existsb_app, IH.
Qed.

Lemma existsb_pointwise {A : Type} (p q : A -> bool) (xs : list A) :
  (forall x, p x = q x) -> existsb p xs = existsb q xs.
Proof.
  intros H. induction xs as [|x xs IH]; simpl; [reflexivity|].
  now rewrite H, IH.
Qed.

Lemma targeted_adminIds (nodes : list value) (n : value) :
  existsb (strict_eq (nodeId n)) (flat_map adminIds nodes)
  = targetedByAdmin nodes n.
Proof.
  rewrite existsb_flat_map. unfold targetedByAdmin. apply existsb_pointwise.
  intros m. unfold adminIds. now destruct (declares "admin_required" m).
Qed.

(** The model resolved from nodes with distinct ids. *)
Lemma parseNodes_distinct (nodes : list value) (m : parsedConfig) :
  uniqueIds nodes -> parseNodes nodes = Ok m ->
  routes m = map (fun n => markIf (flat_map adminIds nodes) (recordOf n))
                 (routeNodes nodes)
  /\ (forall n, In n (routeNodes nodes) -> targetedByAdmin nodes n = true ->
      In (prop (properties n) "endpoint") (adminAuth_routes m)).
Proof.
  intros Hu H. pose proof (parseNodes_notNull _ _ H) as Hnn.
  unfold parseNodes in H. apply bind_ok in H as (r1 & H1 & H2).
  apply firstLoop_spec in H1 as (Hr & _). simpl in Hr.
  assert (Hc : consistent nodes r1).
  { unfold consistent. rewrite Hr, map_map. reflexivity. }
  destruct (secondLoop_marked nodes nodes Hnn Hu r1 m Hc H2) as (M1 & _ & M3).
  split.
  - rewrite M1, Hr, map_map. reflexivity.
  - intros n Hn Ht.
    apply (M3 (recordOf n)).
    + rewrite Hr. now apply in_map.
    + simpl. now rewrite targeted_adminIds.
Qed.

(** ** Resolution: the route records *)

Lemma Forall2_of_maps {A B C : Type} (f : A -> C) (g : B -> C)
  (xs : list A) (ys : list B) :
  map g ys = map f xs -> Forall2 (fun x y => g y = f x) xs ys.
Proof.
  revert ys. induction xs as [|x xs IH]; intros [|y ys]; simpl;
    try discriminate; intros H; constructor.
  - now injection H.
  - apply IH. now injection H.
Qed.

Lemma Forall2_map_right {A B : Type} (R : A -> B -> Prop) (f : A -> B)
  (xs : list A) :
  (forall x, In x xs -> R x (f x)) -> Forall2 R xs (map f xs).
Proof.
  induction xs as [|x xs IH]; simpl; intros H; constructor; auto.
Qed.

Lemma parseNodes_cores (nodes : list value) (m : parsedConfig) :
  parseNodes nodes = Ok m ->
  Forall2 (fun n r => core r = core (recordOf n)) (routeNodes nodes) (routes m).
Proof.
  intros H. apply parseNodes_flags in H as (Hc & _).
  rewrite map_map in Hc. now apply Forall2_of_maps in Hc.
Qed.

(** C2, amended: every model that resolution returns has exactly one
    RouteRecord per node whose properties are there, whose [type] is not
    [middleware] and whose [endpoint] is truthy, and none for any other
    node; the records come in the document order of those nodes, each with
    the id, endpoint and method of its node.  Resolution returns a model
    whenever no node is [null]. *)
Theorem C2_one_record_per_route_node (nodes : list value) :
  resolvesWith nodes (oneRecordPer isRouteNode nodes).
Proof.
  split; [apply parseNodes_total|]. intros m Hm.
  unfold oneRecordPer. fold (routeNodes nodes).
  eapply Forall2_impl; [|apply parseNodes_cores; eassumption].
  intros n r. unfold core, recordOf, routeOf. simpl.
  intros [= E1 E2 E3 _]. auto.
Qed.

Lemma C2_witness :
  exists m, parseNodes userNodes = Ok m /\ oneRecordPer isRouteNode userNodes m.
Proof.
  destruct (C2_one_record_per_route_node userNodes) as (Hret & Hall).
  destruct Hret as (m & Hm); [repeat constructor|].
  exists m. split; [exact Hm | exact (Hall m Hm)].
Defined.

(** C2 as stated fails: a node of type [middleware] that has an endpoint
    passes validation, and resolution gives no RouteRecord for it. *)
Lemma C2_counterexample :
  validateConfig (document middlewareEndpointNodes) = Ok tt
  /\ filter endpointPresent middlewareEndpointNodes
     = [node "2" VUndef [("type", VStr "middleware"); ("endpoint", VStr "/x")]]
  /\ parseNodes middlewareEndpointNodes = Ok emptyResult
  /\ ~ oneRecordPer endpointPresent middlewareEndpointNodes emptyResult.
Proof.
  repeat split.
  unfold oneRecordPer. simpl. intros H. inversion H.
Qed.

(** C5: in every model that resolution returns, the RouteRecord of a route
    node has [authRequired] false when the node's [auth_required] is the
    boolean [false], and true in every other case, the absent field
    included.  Resolution returns a model whenever no node is [null]. *)
Theorem C5_auth_required_by_default (nodes : list value) :
  resolvesWith nodes (authRule nodes).
Proof.
  split; [apply parseNodes_total|]. intros m Hm.
  unfold authRule.
  eapply Forall2_impl; [|apply parseNodes_cores; eassumption].
  intros n r. unfold core, recordOf, routeOf. simpl.
  intros [= _ _ _ ->]. fold (properties n).
  destruct (prop (properties n) "auth_required") as [| |[|]| | | |]; simpl;
    split; congruence.
Qed.

Lemma C5_witness :
  exists m, parseNodes adminNodes = Ok m /\ authRule adminNodes m.
Proof.
  destruct (C5_auth_required_by_default adminNodes) as (Hret & Hall).
  destruct Hret as (m & Hm); [repeat constructor|].
  exists m. split; [exact Hm | exact (Hall m Hm)].
Defined.

(** ** Resolution: admin propagation *)

(** C1, amended: when no two nodes have the same id, in every model that
    resolution returns the RouteRecord of a route node has [adminRequired]
    true if and only if the node's own [admin_required] is truthy or some
    middleware node with a truthy [admin_required] lists the node's id in
    its target (one value or a list); the endpoint of every route targeted
    this way is added to [adminAuth.routes].  Resolution returns a model
    whenever no node is [null]. *)
Theorem C1_admin_propagation (nodes : list value) :
  uniqueIds nodes ->
  resolvesWith nodes (fun m => adminRule nodes m /\ adminRoutesRule nodes m).
Proof.
  intros Hu. split; [apply parseNodes_total|]. intros m Hm.
  destruct (parseNodes_distinct nodes m Hu Hm) as (Hr & Ha).
  split; [|exact Ha].
  unfold adminRule. rewrite Hr. apply Forall2_map_right.
  intros n _. unfold markIf.
  change (id (recordOf n)) with (nodeId n).
  rewrite targeted_adminIds.
  destruct (targetedByAdmin nodes n); simpl.
  - now rewrite orb_true_r.
  - now rewrite orb_false_r.
Qed.

Lemma uniqueIds_adminNodes : uniqueIds adminNodes.
Proof.
  unfold uniqueIds. simpl.
  repeat split; intros j Hj;
    repeat (destruct Hj as [<-|Hj]; [reflexivity|]); destruct Hj.
Qed.

Lemma C1_witness :
  uniqueIds adminNodes
  /\ exists m, parseNodes adminNodes = Ok m
               /\ adminRule adminNodes m /\ adminRoutesRule adminNodes m.
Proof.
  split; [exact uniqueIds_adminNodes|].
  destruct (C1_admin_propagation adminNodes uniqueIds_adminNodes) as (Hret & Hall).
  destruct Hret as (m & Hm); [repeat constructor|].
  exists m. split; [exact Hm | exact (Hall m Hm)].
Defined.

(** C1 as stated fails on a validated sequence with a repeated id: the
    admin middleware lists the id of the route [/x], the lookup by id finds
    the entry node first, and the route stays without [adminRequired]. *)
Lemma C1_counterexample :
  validateConfig (document duplicateIdNodes) = Ok tt
  /\ parseNodes duplicateIdNodes
     = Ok (mkParsed false VUndef false true [] false
             [mkRoute (VStr "1") (VStr "/x") (VStr "GET") true false])
  /\ routeNodes duplicateIdNodes = [node "1" VUndef [("endpoint", VStr "/x")]]
  /\ targetedByAdmin duplicateIdNodes (node "1" VUndef [("endpoint", VStr "/x")])
     = true
  /\ forall m, parseNodes duplicateIdNodes = Ok m ->
               ~ adminRule duplicateIdNodes m.
Proof.
  repeat split.
  intros m [= <-] H. unfold adminRule in H. simpl in H.
  inversion H as [|? ? ? ? E]. discriminate E.
Qed.

(** ** Resolution: no failure on nodes that are not null *)

Lemma inert_firstPass (res : parsedConfig) (n : value) :
  notNull n -> truthy (properties n) = false -> firstPass res n = Ok res.
Proof.
  unfold notNull, firstPass, properties. now intros -> ->.
Qed.

Lemma inert_secondPass (nodes : list value) (res : parsedConfig) (n : value) :
  notNull n -> truthy (properties n) = false -> secondPass nodes res n = Ok res.
Proof.
  unfold notNull, secondPass, get, properties. intros -> Hp.
  unfold bind. now rewrite Hp.
Qed.

Lemma dangling_markTarget (nodes : list value) (res : parsedConfig) (t : value) :
  Forall notNull nodes ->
  (forall n, In n nodes -> strict_eq (nodeId n) t = false) ->
  markTarget nodes res t = Ok res.
Proof.
  intros Hnn Hno. unfold markTarget. rewrite (hasId_pure _ _ Hnn). simpl.
  destruct (find _ nodes) as [n|] eqn:Hf; [|reflexivity].
  apply find_some in Hf as [Hin Hn]. rewrite (Hno n Hin) in Hn. discriminate.
Qed.

Lemma firstLoop_null (nodes : list value) :
  (exists n, In n nodes /\ nullish n = true) ->
  forall res, forEach firstPass nodes res = Err TypeError.
Proof.
  induction nodes as [|x nodes IH]; intros (n & Hin & Hn) res.
  - destruct Hin.
  - simpl. destruct (nullish x) eqn:Hx.
    + unfold firstPass. now rewrite Hx.
    + destruct (firstPass_total res x Hx) as (res' & ->). simpl.
      apply IH. exists n. split; [|assumption].
      destruct Hin as [->|Hin]; [congruence | assumption].
Qed.

Lemma parseNodes_null (nodes : list value) :
  (exists n, In n nodes /\ nullish n = true) ->
  parseNodes nodes = Err TypeError.
Proof.
  intros H. unfold parseNodes. now rewrite (firstLoop_null nodes H).
Qed.

(** C7, amended: resolution returns a model, without raising an error, on
    every node sequence none of whose elements is [null], and only on those:
    on a sequence that has a [null] element it raises a TypeError.  On a
    sequence without [null] a node whose properties are missing or falsy
    changes nothing in either pass, a target id borne by no node changes
    nothing, and a repeated id does not make resolution fail. *)
Theorem C7_resolution_total (nodes : list value) :
  (Forall notNull nodes <-> exists m, parseNodes nodes = Ok m)
  /\ ((exists n, In n nodes /\ nullish n = true) ->
      parseNodes nodes = Err TypeError)
  /\ (Forall notNull nodes ->
      (forall res n, In n nodes -> truthy (properties n) = false ->
                     firstPass res n = Ok res /\ secondPass nodes res n = Ok res)
      /\ (forall res t, (forall n, In n nodes -> strict_eq (nodeId n) t = false) ->
                        markTarget nodes res t = Ok res)).
Proof.
  split; [|split].
  - split; [apply parseNodes_total|].
    intros (m & Hm). eapply parseNodes_notNull; eauto.
  - apply parseNodes_null.
  - intros Hnn. split.
    + intros res n Hin Hp.
      assert (Hn : notNull n) by (rewrite Forall_forall in Hnn; auto).
      split; [now apply inert_firstPass | now apply inert_secondPass].
    + intros res t. now apply dangling_markTarget.
Qed.

Lemma C7_witness :
  Forall notNull duplicateIdNodes
  /\ (exists m, parseNodes duplicateIdNodes = Ok m)
  /\ (exists n, In n nullNodes /\ nullish n = true)
  /\ parseNodes nullNodes = Err TypeError.
Proof.
  assert (H : Forall notNull duplicateIdNodes) by (repeat constructor).
  assert (Hnull : exists n, In n nullNodes /\ nullish n = true).
  { exists VNull. split; [right; now left | reflexivity]. }
  split; [exact H|]. split.
  - exact (proj1 (proj1 (C7_resolution_total duplicateIdNodes)) H).
  - split; [exact Hnull|].
    exact (proj1 (proj2 (C7_resolution_total nullNodes)) Hnull).
Defined.

(** C7 as stated fails: a sequence with a [null] element passes validation
    when an entry node comes first, and resolution then raises a TypeError. *)
Lemma C7_counterexample :
  validateConfig (document nullNodes) = Ok tt
  /\ parseNodes nullNodes = Err TypeError.
Proof. split; reflexivity. Qed.

(** ** Emission: the shape of the text *)

Lemma forEach_code {A : Type} (f : A -> result string) (xs : list A) :
  forall code,
  forEach (fun code x => piece <- f x ;; Ok (code ++ piece)) xs code
  = (pieces <- mapM f xs ;; Ok (code ++ concatAll pieces)).
Proof.
  induction xs as [|x xs IH]; simpl; intros code.
  - now rewrite append_empty_r.
  - destruct (f x) as [piece|e]; simpl; [|reflexivity].
    rewrite IH. destruct (mapM f xs) as [pieces|e]; simpl; [|reflexivity].
    now rewrite append_assoc.
Qed.

Lemma generateServerCode_mapM (pc : parsedConfig) :
  generateServerCode pc
  = (lines <- mapM (routeCode pc) (routes pc) ;;
     Ok (preamble pc ++ concatAll lines ++ listen)).
Proof.
  unfold generateServerCode. rewrite forEach_code.
  destruct (mapM _ _); simpl; [|reflexivity].
  now rewrite append_assoc.
Qed.

Lemma middlewares_gated (pc : parsedConfig) (rt : route) :
  middlewares pc rt = gatedAttached pc rt.
Proof.
  unfold middlewares, gatedAttached, attachedWhen. simpl.
  destruct (authRequired rt && auth_enabled pc),
           (adminRequired rt && adminAuth_enabled pc),
           (logging_enabled pc); reflexivity.
Qed.

Lemma routeCode_textual (pc : parsedConfig) (rt : route) :
  textual rt = true ->
  routeCode pc rt = Ok (registration (gatedAttached pc rt) rt).
Proof.
  unfold textual, routeCode, registration.
  destruct (method rt) as [| | | |m| |]; try discriminate.
  destruct (endpoint rt) as [| | | |e| |]; try discriminate.
  intros _. rewrite middlewares_gated.
  unfold gatedAttached, attachedWhen, handler. simpl filter.
  do 4 f_equal.
  destruct (authRequired rt && auth_enabled pc),
           (adminRequired rt && adminAuth_enabled pc),
           (logging_enabled pc); reflexivity.
Qed.

Lemma mapM_pure {A B : Type} (f : A -> result B) (g : A -> B) (xs : list A) :
  (forall x, In x xs -> f x = Ok (g x)) -> mapM f xs = Ok (map g xs).
Proof.
  induction xs as [|x xs IH]; simpl; intros H; [reflexivity|].
  rewrite (H x (or_introl eq_refl)). simpl. rewrite IH; auto.
Qed.

Lemma emitted_text (pc : parsedConfig) :
  forallb textual (routes pc) = true ->
  generateServerCode pc
  = Ok (preamble pc
        ++ concatAll (map (fun rt => registration (gatedAttached pc rt) rt)
                          (routes pc))
        ++ listen).
Proof.
  intros Ht. rewrite generateServerCode_mapM.
  rewrite (mapM_pure _ (fun rt => registration (gatedAttached pc rt) rt)).
  - reflexivity.
  - intros rt Hrt. apply routeCode_textual.
    rewrite forallb_forall in Ht. auto.
Qed.

Lemma routeCode_not_textual (pc : parsedConfig) (rt : route) :
  textual rt = false -> routeCode pc rt = Err TypeError.
Proof.
  unfold textual, routeCode.
  destruct (method rt); try reflexivity.
  destruct (endpoint rt); try reflexivity. discriminate.
Qed.

Lemma mapM_routeCode_fails (pc : parsedConfig) (rs : list route) :
  forallb textual rs = false -> mapM (routeCode pc) rs = Err TypeError.
Proof.
  induction rs as [|r rs IH]; simpl; [discriminate|].
  destruct (textual r) eqn:Ht; simpl.
  - intros H. rewrite (routeCode_textual pc r Ht). simpl.
    now rewrite (IH H).
  - intros _. now rewrite (routeCode_not_textual pc r Ht).
Qed.

(** The text, or the failure, of emission. *)
Lemma emitted_or_fails (pc : parsedConfig) :
  generateServerCode pc
  = if forallb textual (routes pc)
    then Ok (preamble pc
             ++ concatAll (map (fun rt => registration (gatedAttached pc rt) rt)
                               (routes pc))
             ++ listen)
    else Err TypeError.
Proof.
  destruct (forallb textual (routes pc)) eqn:Ht.
  - now apply emitted_text.
  - rewrite generateServerCode_mapM. now rewrite mapM_routeCode_fails.
Qed.

(** C3, amended: for a model whose routes have a string for method and
    endpoint, the emitted text has one registration statement per
    RouteRecord, in RouteRecord order, with the method lower-cased and the
    middleware names attached from left to right in this order:
    authMiddleware if the record's authRequired is true and auth is enabled,
    adminMiddleware if the record's adminRequired is true and adminAuth is
    enabled, loggingMiddleware if logging is enabled; the handler answers a
    JSON body with the derived message. *)
Theorem C3_registration_per_route (pc : parsedConfig) :
  forallb textual (routes pc) = true ->
  generateServerCode pc
  = Ok (preamble pc
        ++ concatAll (map (fun rt => registration (gatedAttached pc rt) rt)
                          (routes pc))
        ++ listen).
Proof. exact (emitted_text pc). Qed.

Lemma C3_witness :
  forallb textual (routes adminModel) = true
  /\ generateServerCode adminModel
     = Ok (preamble adminModel
           ++ concatAll (map (fun rt => registration (gatedAttached adminModel rt) rt)
                             (routes adminModel))
           ++ listen).
Proof.
  split; [reflexivity|].
  apply (C3_registration_per_route adminModel). reflexivity.
Defined.

(** C3 as stated fails: the route [/x] of [ownAdminNodes] has authRequired
    and adminRequired true, no middleware node enables either, and its
    registration carries no middleware name at all. *)
Lemma C3_counterexample :
  parseNodes ownAdminNodes = Ok ownAdminModel
  /\ map (statedAttached ownAdminModel) (routes ownAdminModel)
     = [["authMiddleware"; "adminMiddleware"]]
  /\ generateServerCode ownAdminModel
     = Ok (preamble ownAdminModel
           ++ concatAll (map (registration []) (routes ownAdminModel))
           ++ listen)
  /\ generateServerCode ownAdminModel
     <> Ok (preamble ownAdminModel
            ++ concatAll (map (fun rt => registration (statedAttached ownAdminModel rt) rt)
                              (routes ownAdminModel))
            ++ listen).
Proof.
  repeat split.
  intros H. vm_compute in H. discriminate H.
Qed.

(** The scenario of an admin middleware targeting [/admin]: the record ends
    admin-required and adminMiddleware comes before loggingMiddleware. *)
Example admin_scenario :
  parseNodes adminNodes = Ok adminModel
  /\ map (middlewares adminModel) (routes adminModel)
     = [ ["adminMiddleware"; "loggingMiddleware"]; ["loggingMiddleware"] ].
Proof. split; reflexivity. Qed.

(** ** Emission: the message of a route *)

Lemma routeName_stripSlash (endpoint : string) :
  (if startsWithSlash endpoint then slice1 endpoint else endpoint)
  = stripSlash endpoint.
Proof.
  destruct endpoint as [|c rest]; [reflexivity|].
  destruct c as [[] [] [] [] [] [] [] []]; reflexivity.
Qed.

Lemma upper_char_capitalOf (c : ascii) : upper_char c = capitalOf c.
Proof. destruct c as [[] [] [] [] [] [] [] []]; vm_compute; reflexivity. Qed.

Lemma capitalize_charAt (name : string) :
  toUpperCase (charAt0 name) ++ slice1 name = capitalize name.
Proof.
  destruct name as [|c rest]; [reflexivity|].
  simpl. now rewrite upper_char_capitalOf.
Qed.

(** C9: the message of an endpoint depends on the endpoint alone: one
    leading slash is removed, each of the nine known resource names gives
    its sentence, and any other name gives the name with its first character
    in upper case, a space and the word resource.  The name is taken to
    start with an ASCII character, the case conversion of the others not
    being modelled. *)
Theorem C9_route_message (endpoint : string) :
  (asciiFirst (stripSlash endpoint) = true ->
   generateRouteMessage endpoint = statedMessage endpoint)
  /\ generateRouteMessage "/user" = "User data"
  /\ generateRouteMessage "user" = "User data"
  /\ generateRouteMessage "/zeta" = "Zeta resource"
  /\ generateRouteMessage "orders" = "Orders resource"
  /\ generateRouteMessage "/User" = "User resource"
  /\ generateRouteMessage "//user" = "/user resource"
  /\ generateRouteMessage "/" = " resource".
Proof.
  split; [|repeat split]. intros _.
  unfold generateRouteMessage, statedMessage.
  rewrite routeName_stripSlash.
  generalize (stripSlash endpoint) as name. intros name.
  unfold knownResources, assoc.
  rewrite (String.eqb_sym "login"), (String.eqb_sym "signup"),
    (String.eqb_sym "signout"), (String.eqb_sym "user"),
    (String.eqb_sym "admin"), (String.eqb_sym "home"),
    (String.eqb_sym "about"), (String.eqb_sym "news"),
    (String.eqb_sym "blogs").
  repeat match goal with
         | |- context [if ?b then _ else _] => destruct b; [reflexivity|]
         end.
  now rewrite <- append_assoc, capitalize_charAt.
Qed.

Lemma C9_witness :
  asciiFirst (stripSlash "/products") = true
  /\ statedMessage "/products" = "Products resource"
  /\ generateRouteMessage "/products" = "Products resource".
Proof.
  split; [reflexivity|]. split; [reflexivity|].
  rewrite (proj1 (C9_route_message "/products") eq_refl). reflexivity.
Defined.

(** ** Emission: the CORS registration *)

Lemma includesStar_In (items : list value) :
  existsb (is_string "*") items = true <-> In (VStr "*") items.
Proof.
  rewrite existsb_exists. split.
  - intros (x & Hx & E). destruct x; simpl in E; try discriminate.
    apply String.eqb_eq in E. now subst.
  - intros H. exists (VStr "*"). split; [assumption | reflexivity].
Qed.

Lemma originText_wildcard (origin : value) :
  origin = VStr "*" \/ (exists items, origin = VArr items /\ In (VStr "*") items) ->
  originText origin = quoted "*".
Proof.
  intros [->|(items & -> & Hin)]; [reflexivity|].
  unfold originText. simpl. apply includesStar_In in Hin. now rewrite Hin.
Qed.

Lemma originText_list (items : list value) :
  ~ In (VStr "*") items ->
  originText (VArr items) = "[" ++ join "," (map elementText items) ++ "]".
Proof.
  intros Hno. unfold originText. simpl.
  destruct (existsb (is_string "*") items) eqn:E; [|reflexivity].
  apply includesStar_In in E. contradiction.
Qed.

Lemma preamble_cors (pc : parsedConfig) (rest : string) :
  cors_enabled pc = true ->
  preamble pc ++ rest
  = requireExpress ++ requireCors ++ createApp ++ useCors (cors_origin pc)
    ++ (useJson
        ++ optional (auth_enabled pc) authMiddlewareDef
        ++ optional (adminAuth_enabled pc) adminMiddlewareDef
        ++ optional (logging_enabled pc) loggingMiddlewareDef)
    ++ rest.
Proof.
  intros Hc. unfold preamble. rewrite Hc. unfold optional at 1 2.
  now rewrite !append_assoc.
Qed.

Lemma emitted_shape (pc : parsedConfig) (text : string) :
  generateServerCode pc = Ok text ->
  exists body, text = preamble pc ++ body ++ listen.
Proof.
  rewrite generateServerCode_mapM. intros H.
  apply bind_ok in H as (lines & _ & [= <-]).
  exists (concatAll lines). reflexivity.
Qed.

Lemma escapeChar_stated (c : ascii) : escapeChar c = statedEscape c.
Proof. destruct c as [[] [] [] [] [] [] [] []]; vm_compute; reflexivity. Qed.

Lemma jsonString_stated (s : string) : jsonString s = statedLiteral s.
Proof.
  unfold jsonString, statedLiteral. do 2 f_equal.
  induction s as [|c s IH]; simpl; [reflexivity|].
  now rewrite escapeChar_stated, IH.
Qed.

Lemma commas_join (items : list string) :
  concatAll (map (fun y => "," ++ y) items)
  = match items with
    | [] => EmptyString
    | _ :: _ => "," ++ join "," items
    end.
Proof.
  induction items as [|y items IH]; [reflexivity|].
  change (concatAll (map (fun y0 => "," ++ y0) (y :: items)))
    with (("," ++ y) ++ concatAll (map (fun y0 => "," ++ y0) items)).
  rewrite IH. destruct items as [|z items].
  - now rewrite append_empty_r.
  - now rewrite append_assoc.
Qed.

Lemma join_commaList (items : list string) : join "," items = commaList items.
Proof.
  destruct items as [|x rest]; [reflexivity|].
  unfold commaList. rewrite commas_join.
  destruct rest; [now rewrite append_empty_r | reflexivity].
Qed.

Lemma plainChar_stated (c : ascii) :
  plainChar c = true -> statedEscape c = String c EmptyString.
Proof.
  destruct c as [[] [] [] [] [] [] [] []]; vm_compute;
    intros H; (reflexivity || discriminate H).
Qed.

(** A string of plain characters is its own literal, between quotes. *)
Lemma statedLiteral_plain (s : string) :
  forallb plainChar (list_ascii_of_string s) = true ->
  statedLiteral s = quoted s.
Proof.
  intros H. unfold statedLiteral, quoted. do 2 f_equal.
  induction s as [|c s IH]; simpl in *; [reflexivity|].
  apply andb_prop in H as [Hc Hs].
  now rewrite (plainChar_stated c Hc), (IH Hs).
Qed.

(** C6: with CORS enabled, every emitted text registers CORS right after
    the application is created, with the origin rendered as the bare
    wildcard literal when the recorded origin is the wildcard or an array
    containing it, and as the literal list of the declared origins when it
    is an array of strings without the wildcard. *)
Theorem C6_cors_origin (pc : parsedConfig) :
  cors_enabled pc = true ->
  (forall text, generateServerCode pc = Ok text ->
   exists rest,
     text = requireExpress ++ requireCors ++ createApp
            ++ ("app.use(cors({ origin: " ++ originText (cors_origin pc)
                ++ " }));" ++ nl)
            ++ rest)
  /\ (forallb textual (routes pc) = true ->
      exists text, generateServerCode pc = Ok text)
  /\ (cors_origin pc = VStr "*"
      \/ (exists items, cors_origin pc = VArr items /\ In (VStr "*") items) ->
      originText (cors_origin pc) = quoted "*")
  /\ (forall names, cors_origin pc = VArr (map VStr names) -> ~ In "*" names ->
      originText (cors_origin pc) = statedOriginList names).
Proof.
  intros Hc. repeat split.
  - intros text H. apply emitted_shape in H as (body & ->).
    rewrite (preamble_cors pc _ Hc). eexists. reflexivity.
  - intros Ht. rewrite (emitted_text pc Ht). eauto.
  - apply originText_wildcard.
  - intros names -> Hno. rewrite originText_list.
    + unfold statedOriginList. rewrite join_commaList, !map_map.
      do 3 f_equal. apply map_ext. intros name. apply jsonString_stated.
    + intros Hin. apply in_map_iff in Hin as (s & [= ->] & Hs). contradiction.
Qed.

Lemma C6_witness :
  cors_enabled originsModel = true
  /\ (exists text rest,
        generateServerCode originsModel = Ok text
        /\ text = requireExpress ++ requireCors ++ createApp
                  ++ ("app.use(cors({ origin: ["
                      ++ quoted "http://a.example" ++ ","
                      ++ quoted "http://b.example" ++ "] }));" ++ nl)
                  ++ rest)
  /\ (exists text rest,
        generateServerCode wildcardModel = Ok text
        /\ text = requireExpress ++ requireCors ++ createApp
                  ++ ("app.use(cors({ origin: " ++ quoted "*" ++ " }));" ++ nl)
                  ++ rest).
Proof.
  split; [reflexivity|]. split.
  - destruct (C6_cors_origin originsModel eq_refl) as (Htext & Hret & _ & Hlist).
    assert (Hl : originText (cors_origin originsModel)
                 = "[" ++ quoted "http://a.example" ++ ","
                       ++ quoted "http://b.example" ++ "]").
    { rewrite (Hlist ["http://a.example"; "http://b.example"] eq_refl).
      - reflexivity.
      - intros [H|[H|[]]]; discriminate H. }
    destruct (Hret eq_refl) as (text & Ht).
    destruct (Htext text Ht) as (rest & Hrest).
    exists text, rest. split; [exact Ht|].
    rewrite Hrest, Hl. now rewrite !append_assoc.
  - destruct (C6_cors_origin wildcardModel eq_refl) as (Htext & Hret & Hwild & _).
    assert (Hw : originText (cors_origin wildcardModel) = quoted "*").
    { apply Hwild. right. exists [VStr "*"]. split; [reflexivity | now left]. }
    destruct (Hret eq_refl) as (text & Ht).
    destruct (Htext text Ht) as (rest & Hrest).
    exists text, rest. split; [exact Ht|]. rewrite <- Hw. exact Hrest.
Defined.

(** The scenario of a CORS node open to every origin, from the document to
    the registration. *)
Example cors_scenario :
  exists m, parseNodes corsNodes = Ok m
            /\ cors_origin m = VArr [VStr "*"]
            /\ useCors (cors_origin m)
               = "app.use(cors({ origin: " ++ quoted "*" ++ " }));" ++ nl.
Proof. eexists. repeat split. Qed.

(** ** Emission: a disabled middleware is attached nowhere *)

Lemma existsb_none {A : Type} (f : A -> bool) (xs : list A) :
  (forall x, In x xs -> f x = false) -> existsb f xs = false.
Proof.
  induction xs as [|x xs IH]; simpl; intros H; [reflexivity|].
  rewrite (H x (or_introl eq_refl)). apply IH. auto.
Qed.

Lemma text_without_admin (pc : parsedConfig) :
  adminAuth_enabled pc = false ->
  generateServerCode pc
  = if forallb textual (routes pc)
    then Ok (requireExpress ++ optional (cors_enabled pc) requireCors
             ++ createApp ++ optional (cors_enabled pc) (useCors (cors_origin pc))
             ++ useJson ++ optional (auth_enabled pc) authMiddlewareDef
             ++ optional (logging_enabled pc) loggingMiddlewareDef
             ++ concatAll
                  (map (fun rt =>
                          registration
                            (attachedWhen
                               [ ("authMiddleware", authRequired rt && auth_enabled pc);
                                 ("loggingMiddleware", logging_enabled pc) ]) rt)
                       (routes pc))
             ++ listen)
    else Err TypeError.
Proof.
  intros E. rewrite emitted_or_fails.
  destruct (forallb textual (routes pc)); [|reflexivity].
  f_equal. unfold preamble. rewrite E.
  change (optional false adminMiddlewareDef) with EmptyString.
  change (EmptyString ++ optional (logging_enabled pc) loggingMiddlewareDef)
    with (optional (logging_enabled pc) loggingMiddlewareDef).
  rewrite !append_assoc. do 9 f_equal.
  apply map_ext. intros rt. f_equal.
  unfold gatedAttached, attachedWhen. rewrite E, andb_false_r. reflexivity.
Qed.

Lemma text_without_auth (pc : parsedConfig) :
  auth_enabled pc = false ->
  generateServerCode pc
  = if forallb textual (routes pc)
    then Ok (requireExpress ++ optional (cors_enabled pc) requireCors
             ++ createApp ++ optional (cors_enabled pc) (useCors (cors_origin pc))
             ++ useJson ++ optional (adminAuth_enabled pc) adminMiddlewareDef
             ++ optional (logging_enabled pc) loggingMiddlewareDef
             ++ concatAll
                  (map (fun rt =>
                          registration
                            (attachedWhen
                               [ ("adminMiddleware",
                                  adminRequired rt && adminAuth_enabled pc);
                                 ("loggingMiddleware", logging_enabled pc) ]) rt)
                       (routes pc))
             ++ listen)
    else Err TypeError.
Proof.
  intros E. rewrite emitted_or_fails.
  destruct (forallb textual (routes pc)); [|reflexivity].
  f_equal. unfold preamble. rewrite E.
  change (optional false authMiddlewareDef) with EmptyString.
  change (EmptyString
          ++ optional (adminAuth_enabled pc) adminMiddlewareDef
          ++ optional (logging_enabled pc) loggingMiddlewareDef)
    with (optional (adminAuth_enabled pc) adminMiddlewareDef
          ++ optional (logging_enabled pc) loggingMiddlewareDef).
  rewrite !append_assoc. do 9 f_equal.
  apply map_ext. intros rt. f_equal.
  unfold gatedAttached, attachedWhen. rewrite E, andb_false_r. reflexivity.
Qed.

(** C10: when no middleware node has a truthy [admin_required], adminAuth is
    not enabled in the resolved model and the text that emission returns is
    made of the imports, the CORS and JSON registrations, the definitions of
    authMiddleware and loggingMiddleware when enabled, and one registration
    per route to which only authMiddleware and loggingMiddleware can be
    attached: no definition of adminMiddleware, and adminMiddleware attached
    to no registration, whatever the [adminRequired] of the records.  The
    same holds of authMiddleware when no middleware node has a truthy
    [auth_required]. *)
Theorem C10_enablement_gating (nodes : list value) :
  ((forall n, In n nodes -> declares "admin_required" n = false) ->
   resolvesWith nodes (fun m =>
     adminAuth_enabled m = false
     /\ generateServerCode m
        = if forallb textual (routes m)
          then Ok (requireExpress ++ optional (cors_enabled m) requireCors
                   ++ createApp
                   ++ optional (cors_enabled m) (useCors (cors_origin m))
                   ++ useJson ++ optional (auth_enabled m) authMiddlewareDef
                   ++ optional (logging_enabled m) loggingMiddlewareDef
                   ++ concatAll
                        (map (fun rt =>
                                registration
                                  (attachedWhen
                                     [ ("authMiddleware",
                                        authRequired rt && auth_enabled m);
                                       ("loggingMiddleware", logging_enabled m) ])
                                  rt)
                             (routes m))
                   ++ listen)
          else Err TypeError))
  /\ ((forall n, In n nodes -> declares "auth_required" n = false) ->
      resolvesWith nodes (fun m =>
        auth_enabled m = false
        /\ generateServerCode m
           = if forallb textual (routes m)
             then Ok (requireExpress ++ optional (cors_enabled m) requireCors
                      ++ createApp
                      ++ optional (cors_enabled m) (useCors (cors_origin m))
                      ++ useJson
                      ++ optional (adminAuth_enabled m) adminMiddlewareDef
                      ++ optional (logging_enabled m) loggingMiddlewareDef
                      ++ concatAll
                           (map (fun rt =>
                                   registration
                                     (attachedWhen
                                        [ ("adminMiddleware",
                                           adminRequired rt && adminAuth_enabled m);
                                          ("loggingMiddleware", logging_enabled m) ])
                                     rt)
                                (routes m))
                      ++ listen)
             else Err TypeError)).
Proof.
  split; intros Hno; (split; [apply parseNodes_total|]); intros m Hm;
    destruct (parseNodes_flags nodes m Hm) as (_ & Hauth & Hadmin & _).
  - assert (E : adminAuth_enabled m = false)
      by (rewrite Hadmin; now apply existsb_none).
    split; [exact E | now apply text_without_admin].
  - assert (E : auth_enabled m = false)
      by (rewrite Hauth; now apply existsb_none).
    split; [exact E | now apply text_without_auth].
Qed.

Lemma C10_witness :
  (forall n, In n ownAdminNodes -> declares "admin_required" n = false)
  /\ exists m, parseNodes ownAdminNodes = Ok m
               /\ map adminRequired (routes m) = [true]
               /\ adminAuth_enabled m = false
               /\ generateServerCode m
                  = Ok (requireExpress ++ createApp ++ useJson
                        ++ "app.get(" ++ quoted "/x"
                        ++ ", (req, res) => res.json({ message: "
                        ++ quoted "X resource" ++ " }));" ++ nl
                        ++ listen).
Proof.
  assert (Hno : forall n, In n ownAdminNodes -> declares "admin_required" n = false).
  { intros n Hn. repeat (destruct Hn as [<-|Hn]; [reflexivity|]). destruct Hn. }
  split; [exact Hno|].
  destruct (proj1 (C10_enablement_gating ownAdminNodes) Hno) as (Hret & Hall).
  destruct Hret as (m & Hm); [repeat constructor|].
  exists m. split; [exact Hm|].
  destruct (Hall m Hm) as (E & Htext).
  injection Hm as <-.
  split; [reflexivity|]. split; [exact E|].
  rewrite Htext. reflexivity.
Defined.

(** A route that declares [admin_required] itself, with no admin middleware
    node: the record is admin-required and nothing is attached. *)
Example own_admin_scenario :
  parseNodes ownAdminNodes = Ok ownAdminModel
  /\ map adminRequired (routes ownAdminModel) = [true]
  /\ map (middlewares ownAdminModel) (routes ownAdminModel) = [[]].
Proof. repeat split. Qed.

(** ** The whole run *)

Lemma validate_shape (config : value) :
  notNull config -> isArray (prop config "nodes") = false ->
  validateConfig config = Err ConfigShapeError.
Proof.
  unfold notNull, validateConfig, get. intros -> Ha. unfold bind.
  now rewrite Ha, orb_true_r.
Qed.

Lemma isEntry_pure (n : value) : notNull n -> isEntry n = Ok (isEntryNode n).
Proof. unfold notNull, isEntry, get, isEntryNode, properties. now intros ->. Qed.

Lemma validate_entry (config : value) (items : list value) :
  notNull config -> prop config "nodes" = VArr items ->
  Forall notNull items ->
  (forall n, In n items -> isEntryNode n = false) ->
  validateConfig config = Err MissingEntryError.
Proof.
  unfold notNull, validateConfig, get. intros -> -> Hnn Hno. unfold bind. simpl.
  rewrite (findM_pure isEntry isEntryNode).
  - destruct (find isEntryNode items) as [n|] eqn:Hf; [|reflexivity].
    apply find_some in Hf as [Hin Hn]. rewrite (Hno n Hin) in Hn. discriminate.
  - intros n Hn. apply isEntry_pure. rewrite Forall_forall in Hnn.
    unfold notNull. auto.
Qed.

(** C4, amended: for every document that is not [null] and whose [nodes]
    field is missing or not an array, the run fails with ConfigShapeError;
    for every such document whose [nodes] array has no [null] element and no
    node with [properties.type] equal to [entry], it fails with
    MissingEntryError.  In both cases the failure does not depend on what
    resolution and emission would do, and the output file is left as it
    was. *)
Theorem C4_validation_failures
  (resolve : list value -> result parsedConfig)
  (emit : parsedConfig -> result string) (config : value) (w : world) :
  notNull config ->
  (isArray (prop config "nodes") = false ->
   runGenerate resolve emit config w
   = mkWorld (outputFile w) (Some ConfigShapeError))
  /\ (forall items,
        prop config "nodes" = VArr items -> Forall notNull items ->
        (forall n, In n items -> isEntryNode n = false) ->
        runGenerate resolve emit config w
        = mkWorld (outputFile w) (Some MissingEntryError)).
Proof.
  intros Hc. split.
  - intros Ha. unfold runGenerate, generate.
    now rewrite (validate_shape config Hc Ha).
  - intros items Hn Hnn Hno. unfold runGenerate, generate.
    now rewrite (validate_entry config items Hc Hn Hnn Hno).
Qed.

Lemma C4_witness :
  notNull (VObj []) /\ isArray (prop (VObj []) "nodes") = false
  /\ generateServer (VObj []) emptyWorld = mkWorld None (Some ConfigShapeError)
  /\ generateServer (document []) emptyWorld = mkWorld None (Some MissingEntryError).
Proof.
  split; [reflexivity|]. split; [reflexivity|]. split.
  - apply (proj1 (C4_validation_failures parseNodes generateServerCode
                    (VObj []) emptyWorld eq_refl)).
    reflexivity.
  - apply (proj2 (C4_validation_failures parseNodes generateServerCode
                    (document []) emptyWorld eq_refl) []).
    + reflexivity.
    + constructor.
    + intros n [].
Defined.

(** C4 as stated fails: the document [null] has no [nodes] field and the
    document whose only node is [null] has no entry node; validation raises
    a TypeError on both, which is neither of the two named errors. *)
Lemma C4_counterexample :
  prop VNull "nodes" = VUndef
  /\ failure (generateServer VNull emptyWorld) = Some TypeError
  /\ filter isEntryNode [VNull] = []
  /\ failure (generateServer (document [VNull]) emptyWorld) = Some TypeError
  /\ TypeError <> ConfigShapeError /\ TypeError <> MissingEntryError.
Proof. repeat split; discriminate. Qed.

(** The scenario of an authentication middleware and the route [/user]. *)
Example user_scenario :
  generateServer (document userNodes) emptyWorld
  = mkWorld
      (Some (requireExpress ++ createApp ++ useJson ++ authMiddlewareDef
             ++ "app.get(" ++ quoted "/user"
             ++ ", authMiddleware, (req, res) => res.json({ message: "
             ++ quoted "User data" ++ " }));" ++ nl
             ++ listen))
      None.
Proof. reflexivity. Qed.

(** * Further properties of the code *)

(** ** Validation: when a document is accepted *)

Lemma properties_truthy_object (n : value) :
  truthy (properties n) = true -> truthy n = true /\ notNull n.
Proof.
  unfold properties, notNull. destruct n; simpl; try discriminate. auto.
Qed.

Lemma isEntryNode_object (n : value) :
  isEntryNode n = true -> truthy n = true /\ notNull n.
Proof.
  unfold isEntryNode. intros H. apply andb_prop in H as [H _].
  now apply properties_truthy_object.
Qed.

Lemma validateConfig_find (config : value) (items : list value) :
  notNull config -> prop config "nodes" = VArr items ->
  validateConfig config
  = (entryNode <- findM isEntry items ;;
     match entryNode with
     | Some n => if truthy n then Ok tt else Err MissingEntryError
     | None => Err MissingEntryError
     end).
Proof.
  unfold notNull, validateConfig, get. intros -> ->. reflexivity.
Qed.

(** On a document whose [nodes] is an array without [null], validation
    succeeds exactly when some node has properties whose [type] is
    [entry]. *)
Theorem validateConfig_accepts_iff (config : value) (items : list value) :
  notNull config -> prop config "nodes" = VArr items ->
  Forall notNull items ->
  (validateConfig config = Ok tt <-> existsb isEntryNode items = true).
Proof.
  intros Hc Hn Hnn. rewrite (validateConfig_find config items Hc Hn).
  rewrite (findM_pure isEntry isEntryNode).
  2:{ intros n Hin. apply isEntry_pure. rewrite Forall_forall in Hnn. auto. }
  simpl. destruct (find isEntryNode items) as [n|] eqn:Hf.
  - apply find_some in Hf as [Hin He].
    destruct (isEntryNode_object n He) as [-> _].
    split; [intros _|reflexivity].
    apply existsb_exists. eauto.
  - split; [discriminate|]. intros He.
    apply existsb_exists in He as (n & Hin & He).
    rewrite (find_none _ _ Hf n Hin) in He. discriminate.
Qed.

Lemma validateConfig_accepts_iff_witness :
  notNull (document userNodes)
  /\ existsb isEntryNode userNodes = true
  /\ validateConfig (document userNodes) = Ok tt.
Proof.
  split; [reflexivity|]. split; [reflexivity|].
  apply (validateConfig_accepts_iff (document userNodes) userNodes);
    [reflexivity | reflexivity | repeat constructor | reflexivity].
Defined.

Lemma findM_isEntry_prefix (pre rest : list value) (x : value) :
  Forall notNull pre -> (forall n, In n pre -> isEntryNode n = false) ->
  findM isEntry (pre ++ x :: rest)
  = (b <- isEntry x ;; if b then Ok (Some x) else findM isEntry rest).
Proof.
  induction pre as [|n pre IH]; simpl; intros Hnn Hno; [reflexivity|].
  inversion Hnn as [|? ? Hn Hpre]; subst.
  rewrite (isEntry_pure n Hn), (Hno n (or_introl eq_refl)). simpl.
  apply IH; auto.
Qed.

(** Validation looks no further than the first entry node or the first
    [null]: after nodes that are neither, an entry node makes the document
    valid whatever follows it, and a [null] makes validation raise a
    TypeError whatever follows it. *)
Theorem validateConfig_stops_early
  (config : value) (pre rest : list value) (x : value) :
  notNull config -> prop config "nodes" = VArr (pre ++ x :: rest) ->
  Forall notNull pre -> (forall n, In n pre -> isEntryNode n = false) ->
  (isEntryNode x = true -> validateConfig config = Ok tt)
  /\ (x = VNull -> validateConfig config = Err TypeError).
Proof.
  intros Hc Hn Hnn Hno.
  rewrite (validateConfig_find config _ Hc Hn).
  rewrite (findM_isEntry_prefix pre rest x Hnn Hno).
  split.
  - intros He. destruct (isEntryNode_object x He) as [Ht Hx].
    rewrite (isEntry_pure x Hx), He. simpl. now rewrite Ht.
  - intros ->. reflexivity.
Qed.

Lemma validateConfig_stops_early_witness :
  validateConfig (document ([] ++ entry1 :: [VNull])) = Ok tt
  /\ validateConfig (document ([] ++ VNull :: [entry1])) = Err TypeError.
Proof.
  split.
  - apply (proj1 (validateConfig_stops_early
                    (document ([] ++ entry1 :: [VNull])) [] [VNull] entry1
                    eq_refl eq_refl (Forall_nil _) (fun n (H : In n []) => match H with end))).
    reflexivity.
  - apply (proj2 (validateConfig_stops_early
                    (document ([] ++ VNull :: [entry1])) [] [entry1] VNull
                    eq_refl eq_refl (Forall_nil _) (fun n (H : In n []) => match H with end))).
    reflexivity.
Defined.

(** ** Emission: when it fails *)

(** Emission returns a text when every route has a string for method and
    for endpoint, and raises a TypeError as soon as one route has not. *)
Theorem generateServerCode_fails_iff (pc : parsedConfig) :
  generateServerCode pc
  = if forallb textual (routes pc)
    then Ok (preamble pc
             ++ concatAll (map (fun rt => registration (gatedAttached pc rt) rt)
                               (routes pc))
             ++ listen)
    else Err TypeError.
Proof. exact (emitted_or_fails pc). Qed.

(** ** Resolution: the flags and the origin *)

(** In every model that resolution returns, each of the four features is
    enabled exactly when some node of type [middleware] has a truthy value
    for its property; the properties of a route node enable nothing. *)
Theorem parseNodes_enables (nodes : list value) :
  resolvesWith nodes (fun m =>
    auth_enabled m = existsb (declares "auth_required") nodes
    /\ adminAuth_enabled m = existsb (declares "admin_required") nodes
    /\ logging_enabled m = existsb (declares "log_requests") nodes
    /\ cors_enabled m = existsb (declares "allowed_origins") nodes).
Proof.
  split; [apply parseNodes_total|]. intros m Hm.
  now destruct (parseNodes_flags nodes m Hm) as (_ & H).
Qed.

Lemma find_app_first {A : Type} (p : A -> bool) (xs ys : list A) :
  find p (xs ++ ys)
  = match find p xs with
    | Some x => Some x
    | None => find p ys
    end.
Proof.
  induction xs as [|x xs IH]; simpl; [reflexivity|].
  destruct (p x); [reflexivity | apply IH].
Qed.

Lemma firstPass_origin (res res' : parsedConfig) (node : value) :
  firstPass res node = Ok res' ->
  cors_origin res'
  = if declares "allowed_origins" node
    then prop (properties node) "allowed_origins"
    else cors_origin res.
Proof.
  unfold firstPass, declares, isMiddleware, properties.
  destruct (nullish node); [discriminate|].
  destruct (truthy (prop node "properties")); simpl; [|now intros [= <-]].
  destruct (is_string "middleware" _); simpl.
  - intros [= <-]. unfold when.
    destruct (truthy (prop _ "log_requests")),
             (truthy (prop _ "admin_required")),
             (truthy (prop _ "auth_required")),
             (truthy (prop _ "allowed_origins")); reflexivity.
  - destruct (truthy (prop _ "endpoint")); intros [= <-]; reflexivity.
Qed.

Lemma firstLoop_origin (nodes : list value) :
  forall res res',
  forEach firstPass nodes res = Ok res' ->
  cors_origin res'
  = match find (declares "allowed_origins") (rev nodes) with
    | Some n => prop (properties n) "allowed_origins"
    | None => cors_origin res
    end.
Proof.
  induction nodes as [|n nodes IH]; simpl forEach; intros res res' H.
  - now injection H as <-.
  - apply bind_ok in H as (r1 & H1 & H2).
    rewrite (IH _ _ H2). simpl rev. rewrite find_app_first.
    destruct (find _ (rev nodes)); [reflexivity|].
    simpl. rewrite (firstPass_origin _ _ _ H1).
    now destruct (declares "allowed_origins" n).
Qed.

(** In every model that resolution returns, the recorded CORS origin is the
    [allowed_origins] of the last middleware node that declares one, and it
    is truthy whenever CORS is enabled. *)
Theorem parseNodes_last_origin (nodes : list value) :
  resolvesWith nodes (fun m =>
    cors_origin m = lastCorsOrigin nodes
    /\ (cors_enabled m = true -> truthy (cors_origin m) = true)).
Proof.
  split; [apply parseNodes_total|]. intros m Hm.
  destruct (parseNodes_flags nodes m Hm) as (_ & _ & _ & _ & Hc).
  unfold parseNodes in Hm. apply bind_ok in Hm as (r1 & H1 & H2).
  apply firstLoop_origin in H1.
  apply secondLoop_stable in H2 as (_ & S2 & _).
  assert (E : cors_origin m = lastCorsOrigin nodes).
  { rewrite S2, H1. unfold lastCorsOrigin. now destruct (find _ _). }
  split; [exact E|].
  rewrite E, Hc. unfold lastCorsOrigin. intros He.
  destruct (find _ (rev nodes)) as [n|] eqn:Hf.
  - apply find_some in Hf as [_ Hd]. unfold declares in Hd.
    now apply andb_prop in Hd as [_ Hd].
  - apply existsb_exists in He as (n & Hin & Hd).
    rewrite (find_none _ _ Hf n) in Hd; [discriminate|].
    now apply in_rev in Hin.
Qed.

Lemma parseNodes_enables_witness :
  exists m, parseNodes adminNodes = Ok m
            /\ adminAuth_enabled m = true /\ auth_enabled m = false.
Proof.
  destruct (parseNodes_enables adminNodes) as (Hret & Hall).
  destruct Hret as (m & Hm); [repeat constructor|].
  exists m. split; [exact Hm|].
  destruct (Hall m Hm) as (Ha & Hd & _).
  split; [rewrite Hd | rewrite Ha]; reflexivity.
Defined.

Lemma parseNodes_last_origin_witness :
  exists m, parseNodes corsNodes = Ok m /\ cors_origin m = VArr [VStr "*"].
Proof.
  destruct (parseNodes_last_origin corsNodes) as (Hret & Hall).
  destruct Hret as (m & Hm); [repeat constructor|].
  exists m. split; [exact Hm|].
  destruct (Hall m Hm) as (Ho & _). rewrite Ho. reflexivity.
Defined.

(** ** Resolution: marking without distinct ids *)

Section Invariant.

Context {A S : Type}.
Variable body : S -> A -> result S.

(** A property kept by every iteration holds after the loop. *)
Lemma forEach_invariant (I : S -> Prop) (xs : list A) :
  (forall s x s', In x xs -> I s -> body s x = Ok s' -> I s') ->
  forall s s', I s -> forEach body xs s = Ok s' -> I s'.
Proof.
  induction xs as [|x xs IH]; simpl; intros Hstep s s' Hs H.
  - now injection H as <-.
  - apply bind_ok in H as (s1 & H1 & H2).
    apply (IH (fun s0 y s0' Hy => Hstep s0 y s0' (or_intror Hy)) s1 s');
      [|assumption].
    apply (Hstep s x s1); auto.
Qed.

End Invariant.

Lemma Forall2_updateAt {A B : Type} (R : A -> B -> Prop) (f : B -> B) (i : nat) :
  forall (xs : list A) (ys : list B),
  Forall2 R xs ys ->
  (forall a b, nth_error ys i = Some b -> R a b -> R a (f b)) ->
  Forall2 R xs (updateAt f i ys).
Proof.
  induction i as [|i IH]; intros xs ys H Hf; destruct H as [|a b xs ys Hab H];
    simpl; constructor; auto.
Qed.

Lemma In_updateAt {A : Type} (f : A -> A) (i : nat) (xs : list A) (x : A) :
  In x xs -> In x (updateAt f i xs) \/ In (f x) (updateAt f i xs).
Proof.
  revert i. induction xs as [|y xs IH]; simpl; [tauto|].
  intros [|i] [->|Hx]; simpl; auto.
  destruct (IH i Hx); auto.
Qed.

Lemma nth_error_updateAt {A : Type} (f : A -> A) (i : nat) (xs : list A) (x : A) :
  nth_error xs i = Some x -> In (f x) (updateAt f i xs).
Proof.
  revert i. induction xs as [|y xs IH]; intros [|i]; simpl; try discriminate.
  - intros [= ->]. now left.
  - intros H. right. now apply IH.
Qed.

Lemma markTarget_cause (nodes T : list value) (r0 : list route)
  (res res' : parsedConfig) (t : value) :
  In t T -> causeInvariant T r0 res ->
  markTarget nodes res t = Ok res' -> causeInvariant T r0 res'.
Proof.
  intros Ht (HF & HS & HN) H. unfold markTarget in H.
  apply bind_ok in H as (tn & _ & H).
  destruct (bearsEndpoint tn); [|injection H as <-; now repeat split].
  destruct (findIndex _ (routes res)) as [i|] eqn:Hi;
    [|injection H as <-; now repeat split].
  apply findIndex_some in Hi as (rt & Hnth & Hrt).
  unfold markAdmin in H. rewrite Hnth in H. injection H as <-.
  split; [|split]; simpl.
  - apply Forall2_updateAt; [assumption|].
    intros a b Hb (Hc & Hk & Hj). rewrite Hnth in Hb. injection Hb as <-.
    repeat split; simpl; auto.
    intros _. right. apply existsb_exists. exists t. split; [assumption|].
    unfold core in Hc. injection Hc as Hid _ _ _. now rewrite <- Hid.
  - intros e He. apply in_app_or in He as [He|[<-|[]]].
    + destruct (HS e He) as (r & Hr & <- & Hadm).
      destruct (In_updateAt setAdmin i _ _ Hr) as [Hin|Hin].
      * exists r. auto.
      * exists (setAdmin r). auto.
    + exists (setAdmin rt). split; [now apply nth_error_updateAt | auto].
  - intros _ E. rewrite E in Ht. destruct Ht.
Qed.

Lemma secondPass_cause (nodes : list value) (r0 : list route)
  (res res' : parsedConfig) (node : value) :
  In node nodes -> causeInvariant (visitedTargets nodes) r0 res ->
  secondPass nodes res node = Ok res' ->
  causeInvariant (visitedTargets nodes) r0 res'.
Proof.
  intros Hin HI H. unfold secondPass in H.
  apply bind_ok in H as (ps & Hps & H).
  unfold get in Hps. destruct (nullish node); [discriminate|].
  injection Hps as <-.
  destruct (truthy (prop node "properties") && _) eqn:Hm;
    [|now injection H as <-].
  destruct (truthy (prop _ "admin_required")) eqn:Ha;
    [|now injection H as <-].
  destruct (truthy (prop node "target")) eqn:Htg; simpl in H;
    [|now injection H as <-].
  revert HI H. apply forEach_invariant.
  intros s t s' Ht. apply markTarget_cause.
  unfold visitedTargets. apply in_flat_map. exists node. split; [assumption|].
  unfold adminIds, declares, isMiddleware, adminTargets, properties.
  now rewrite Hm, Ha, Htg.
Qed.

Lemma Forall2_map_left {A B C : Type} (R : B -> C -> Prop) (f : A -> B)
  (xs : list A) (ys : list C) :
  Forall2 R (map f xs) ys -> Forall2 (fun x y => R (f x) y) xs ys.
Proof.
  revert ys. induction xs as [|x xs IH]; simpl; intros ys H;
    inversion H; subst; constructor; auto.
Qed.

Lemma Forall2_same {A : Type} (R : A -> A -> Prop) (xs : list A) :
  (forall x, R x x) -> Forall2 R xs xs.
Proof. intros H. induction xs; constructor; auto. Qed.

Lemma parseNodes_cause (nodes : list value) (m : parsedConfig) :
  parseNodes nodes = Ok m ->
  causeInvariant (visitedTargets nodes) (map recordOf (routeNodes nodes)) m.
Proof.
  unfold parseNodes. intros H. apply bind_ok in H as (r1 & H1 & H2).
  apply firstLoop_spec in H1 as (Hr & _ & _ & _ & _ & Hx). simpl in Hr, Hx.
  revert H2. apply forEach_invariant.
  - intros s x s' Hin. now apply secondPass_cause.
  - split; [|split].
    + rewrite Hr. apply Forall2_same. intros r. unfold markedWithCause. auto.
    + intros e He. rewrite Hx in He. destruct He.
    + rewrite Hx. congruence.
Qed.

(** In every model that resolution returns, repeated ids or not, a record
    is admin-required only if its node asks for it or an admin middleware
    node lists its id, and always when its node asks for it. *)
Theorem parseNodes_marks_with_cause (nodes : list value) :
  resolvesWith nodes (adminJustified nodes).
Proof.
  split; [apply parseNodes_total|]. intros m Hm.
  destruct (parseNodes_cause nodes m Hm) as (HF & _ & _).
  apply Forall2_map_left in HF. unfold adminJustified.
  eapply Forall2_impl; [|exact HF].
  intros n r (_ & Hk & Hj). simpl in Hk, Hj. fold (properties n) in Hk, Hj.
  split; [exact Hk|]. intros Hr.
  destruct (Hj Hr) as [Ho|Ht]; [now left|right].
  unfold visitedTargets in Ht.
  change (id (recordOf n)) with (nodeId n) in Ht.
  now rewrite targeted_adminIds in Ht.
Qed.

Lemma parseNodes_marks_with_cause_witness :
  exists m, parseNodes duplicateIdNodes = Ok m
            /\ adminJustified duplicateIdNodes m.
Proof.
  destruct (parseNodes_marks_with_cause duplicateIdNodes) as (Hret & Hall).
  destruct Hret as (m & Hm); [repeat constructor|].
  exists m. split; [exact Hm | exact (Hall m Hm)].
Defined.

(** In every model that resolution returns, each endpoint recorded in
    [adminAuth.routes] is the endpoint of a record that is admin-required,
    and nothing is recorded unless admin authentication is enabled. *)
Theorem parseNodes_admin_routes_sound (nodes : list value) :
  resolvesWith nodes (fun m =>
    adminRoutesSound m
    /\ (adminAuth_routes m <> [] -> adminAuth_enabled m = true)).
Proof.
  split; [apply parseNodes_total|]. intros m Hm.
  destruct (parseNodes_cause nodes m Hm) as (_ & HS & HN).
  split; [exact HS|]. intros Hne.
  destruct (parseNodes_flags nodes m Hm) as (_ & _ & Hd & _). rewrite Hd.
  specialize (HN Hne). unfold visitedTargets in HN.
  destruct (flat_map adminIds nodes) as [|t ts] eqn:E; [congruence|].
  assert (Ht : In t (flat_map adminIds nodes)) by (rewrite E; now left).
  apply in_flat_map in Ht as (n & Hn & Htn).
  apply existsb_exists. exists n. split; [assumption|].
  unfold adminIds in Htn.
  destruct (declares "admin_required" n); [reflexivity | destruct Htn].
Qed.

Lemma parseNodes_admin_routes_sound_witness :
  exists m, parseNodes adminNodes = Ok m
            /\ adminRoutesSound m /\ adminAuth_enabled m = true.
Proof.
  destruct (parseNodes_admin_routes_sound adminNodes) as (Hret & Hall).
  destruct Hret as (m & Hm); [repeat constructor|].
  exists m. split; [exact Hm|].
  destruct (Hall m Hm) as (Hs & He). split; [exact Hs|].
  apply He. injection Hm as <-. discriminate.
Defined.

(** ** Resolution: nodes that can be left out *)

Lemma forEach_app {A S : Type} (body : S -> A -> result S) (xs ys : list A) :
  forall s,
  forEach body (xs ++ ys) s = (s' <- forEach body xs s ;; forEach body ys s').
Proof.
  induction xs as [|x xs IH]; simpl; intros s; [reflexivity|].
  destruct (body s x); simpl; [apply IH | reflexivity].
Qed.

Lemma forEach_same_on {A S : Type} (f g : S -> A -> result S) (xs : list A) :
  (forall s x, In x xs -> f s x = g s x) ->
  forall s, forEach f xs s = forEach g xs s.
Proof.
  induction xs as [|x xs IH]; simpl; intros H s; [reflexivity|].
  rewrite (H s x (or_introl eq_refl)).
  destruct (g s x); simpl; [apply IH; auto | reflexivity].
Qed.

Lemma inert_not_acted (x : value) :
  isInert x = true -> notNull x ->
  (forall res, firstPass res x = Ok res)
  /\ (forall nodes res, secondPass nodes res x = Ok res)
  /\ adminIds x = [].
Proof.
  unfold isInert, isMiddleware, isRouteNode, notNull, adminIds, declares,
    isMiddleware, firstPass, secondPass, get, properties.
  intros Hi ->. unfold bind.
  destruct (truthy (prop x "properties")); simpl in *; [|auto].
  destruct (is_string "middleware" _); simpl in *; [discriminate|].
  destruct (truthy (prop _ "endpoint")); simpl in *; [discriminate|auto].
Qed.

Lemma findM_skip {A : Type} (p : A -> result bool) (pre post : list A) (x : A) :
  p x = Ok false -> findM p (pre ++ x :: post) = findM p (pre ++ post).
Proof.
  intros Hx. induction pre as [|a pre IH]; simpl.
  - now rewrite Hx.
  - destruct (p a) as [[|]|]; simpl; auto.
Qed.

Lemma secondPass_skip (pre post : list value) (x n : value) (res : parsedConfig) :
  notNull x ->
  (forall t, In t (adminIds n) -> strict_eq (nodeId x) t = false) ->
  secondPass (pre ++ x :: post) res n = secondPass (pre ++ post) res n.
Proof.
  intros Hx Hno. unfold secondPass.
  destruct (get n "properties") as [ps|e] eqn:Hg; simpl; [|reflexivity].
  unfold get in Hg. destruct (nullish n); [discriminate|]. injection Hg as <-.
  destruct (truthy (prop n "properties") && _) eqn:Hm; [|reflexivity].
  destruct (truthy (prop _ "admin_required")) eqn:Ha; [|reflexivity].
  destruct (truthy (prop n "target")) eqn:Ht; simpl; [|reflexivity].
  apply forEach_same_on. intros s t Hin. unfold markTarget.
  rewrite findM_skip; [reflexivity|].
  unfold hasId, get. unfold notNull in Hx. rewrite Hx. simpl.
  f_equal. apply Hno.
  unfold adminIds, declares, isMiddleware, adminTargets, properties.
  now rewrite Hm, Ha, Ht.
Qed.

(** A node that is neither a middleware nor a route, and whose id no admin
    middleware targets, can be left out of the sequence: resolution gives
    the same result, be it a model or a failure. *)
Theorem parseNodes_drops_inert (pre post : list value) (x : value) :
  isInert x = true -> notNull x ->
  (forall t, In t (visitedTargets (pre ++ post)) ->
             strict_eq (nodeId x) t = false) ->
  parseNodes (pre ++ x :: post) = parseNodes (pre ++ post).
Proof.
  intros Hi Hx Hno.
  destruct (inert_not_acted x Hi Hx) as (H1 & H2 & H3).
  assert (Hpre : forall s, forEach (secondPass (pre ++ x :: post)) pre s
                           = forEach (secondPass (pre ++ post)) pre s).
  { apply forEach_same_on. intros s n Hn. apply secondPass_skip; [assumption|].
    intros t Ht. apply Hno. unfold visitedTargets. apply in_flat_map.
    exists n. split; [apply in_or_app; now left | assumption]. }
  assert (Hpost : forall s, forEach (secondPass (pre ++ x :: post)) post s
                            = forEach (secondPass (pre ++ post)) post s).
  { apply forEach_same_on. intros s n Hn. apply secondPass_skip; [assumption|].
    intros t Ht. apply Hno. unfold visitedTargets. apply in_flat_map.
    exists n. split; [apply in_or_app; now right | assumption]. }
  unfold parseNodes. rewrite !(forEach_app firstPass).
  destruct (forEach firstPass pre emptyResult) as [r1|e]; simpl; [|reflexivity].
  rewrite H1. simpl.
  destruct (forEach firstPass post r1) as [r2|e]; simpl; [|reflexivity].
  rewrite !forEach_app, Hpre.
  destruct (forEach (secondPass (pre ++ post)) pre r2) as [r3|e]; simpl;
    [|reflexivity].
  rewrite H2. simpl. apply Hpost.
Qed.

Lemma parseNodes_drops_inert_witness :
  parseNodes ([entry1] ++ node "9" VUndef [("type", VStr "exit")]
              :: [node "3" VUndef [("endpoint", VStr "/user")]])
  = parseNodes ([entry1] ++ [node "3" VUndef [("endpoint", VStr "/user")]]).
Proof.
  apply (parseNodes_drops_inert [entry1]
           [node "3" VUndef [("endpoint", VStr "/user")]]
           (node "9" VUndef [("type", VStr "exit")])).
  - reflexivity.
  - reflexivity.
  - intros t [].
Defined.

(** ** The whole run: when a file is written *)

Lemma textual_core (a b : route) : core a = core b -> textual a = textual b.
Proof.
  unfold core, textual. intros [= _ He Hm _]. now rewrite He, Hm.
Qed.

Lemma forallb_textual_cores (xs ys : list route) :
  map core xs = map core ys -> forallb textual xs = forallb textual ys.
Proof.
  revert ys. induction xs as [|x xs IH]; intros [|y ys]; simpl;
    try discriminate; [reflexivity|].
  intros H.
  assert (Hc : core x = core y) by congruence.
  assert (Hr : map core xs = map core ys) by congruence.
  now rewrite (textual_core x y Hc), (IH ys Hr).
Qed.

(** For a document that passes validation and has no [null] node, the run
    writes the output file when every route node has a string for endpoint
    and a string or nothing for method; otherwise it fails with a TypeError
    and leaves the file as it was. *)
Theorem generateServer_outcome (config : value) (items : list value) (w : world) :
  notNull config -> prop config "nodes" = VArr items ->
  Forall notNull items -> existsb isEntryNode items = true ->
  (forallb textual (map recordOf (routeNodes items)) = true ->
   exists code, generateServer config w = mkWorld (Some code) None)
  /\ (forallb textual (map recordOf (routeNodes items)) = false ->
      generateServer config w = mkWorld (outputFile w) (Some TypeError)).
Proof.
  intros Hc Hn Hnn He.
  assert (Hv : validateConfig config = Ok tt)
    by (now apply (validateConfig_accepts_iff config items)).
  destruct (parseNodes_total items Hnn) as (m & Hm).
  destruct (parseNodes_flags items m Hm) as (Hcore & _).
  apply forallb_textual_cores in Hcore.
  unfold generateServer, runGenerate, generate, get.
  unfold notNull in Hc. rewrite Hv, Hc, Hn. simpl. rewrite Hm. simpl.
  rewrite emitted_or_fails, Hcore.
  split; intros ->; eauto.
Qed.

Lemma generateServer_outcome_witness :
  (exists code,
     generateServer (document userNodes) emptyWorld = mkWorld (Some code) None)
  /\ generateServer
       (document [entry1; node "2" VUndef [("endpoint", VNum 5)]]) emptyWorld
     = mkWorld None (Some TypeError).
Proof.
  split.
  - apply (proj1 (generateServer_outcome (document userNodes) userNodes
                    emptyWorld eq_refl eq_refl
                    ltac:(repeat constructor) eq_refl)).
    reflexivity.
  - apply (proj2 (generateServer_outcome
                    (document [entry1; node "2" VUndef [("endpoint", VNum 5)]])
                    [entry1; node "2" VUndef [("endpoint", VNum 5)]]
                    emptyWorld eq_refl eq_refl
                    ltac:(repeat constructor) eq_refl)).
    reflexivity.
Defined.

(** ** Emission: what it does not read *)

Lemma routeCode_shown (pc pc' : parsedConfig) (a b : route) :
  auth_enabled pc = auth_enabled pc' ->
  adminAuth_enabled pc = adminAuth_enabled pc' ->
  logging_enabled pc = logging_enabled pc' ->
  shown a = shown b -> routeCode pc a = routeCode pc' b.
Proof.
  unfold shown, routeCode, middlewares.
  intros -> -> -> [= -> -> -> ->]. reflexivity.
Qed.

Lemma mapM_routeCode_shown (pc pc' : parsedConfig) (xs ys : list route) :
  auth_enabled pc = auth_enabled pc' ->
  adminAuth_enabled pc = adminAuth_enabled pc' ->
  logging_enabled pc = logging_enabled pc' ->
  map shown xs = map shown ys ->
  mapM (routeCode pc) xs = mapM (routeCode pc') ys.
Proof.
  intros Ha Hd Hl. revert ys.
  induction xs as [|x xs IH]; intros [|y ys]; simpl; try discriminate;
    [reflexivity|].
  intros H.
  assert (Hs : shown x = shown y) by congruence.
  assert (Hr : map shown xs = map shown ys) by congruence.
  now rewrite (routeCode_shown pc pc' x y Ha Hd Hl Hs), (IH ys Hr).
Qed.

(** The emitted text depends neither on the ids of the routes nor on
    [adminAuth.routes]: two models that agree on the five settings and on
    the endpoint, method and two flags of each route give the same text or
    the same failure. *)
Theorem generateServerCode_reads (pc pc' : parsedConfig) :
  cors_enabled pc = cors_enabled pc' -> cors_origin pc = cors_origin pc' ->
  auth_enabled pc = auth_enabled pc' ->
  adminAuth_enabled pc = adminAuth_enabled pc' ->
  logging_enabled pc = logging_enabled pc' ->
  map shown (routes pc) = map shown (routes pc') ->
  generateServerCode pc = generateServerCode pc'.
Proof.
  intros Hc Ho Ha Hd Hl Hr. rewrite !generateServerCode_mapM.
  rewrite (mapM_routeCode_shown pc pc' _ _ Ha Hd Hl Hr).
  unfold preamble. now rewrite Hc, Ho, Ha, Hd, Hl.
Qed.

Lemma generateServerCode_reads_witness :
  generateServerCode adminModel
  = generateServerCode
      (mkParsed false VUndef false true [] true
         [ mkRoute VNull (VStr "/admin") (VStr "GET") true true;
           mkRoute VNull (VStr "/home") (VStr "GET") false false ]).
Proof.
  apply (generateServerCode_reads adminModel); reflexivity.
Defined.

(** ** The command line *)

(** What a run of the script leaves: without arguments it prints the usage
    and touches nothing; on a failure it touches nothing; on success it has
    read the document at the first argument and written the generated text
    at the second argument, or at [server.js] when that one is missing or
    empty, and no other file has changed. *)
Theorem main_effect (readConfig : disk -> string -> result value)
  (args : list string) (d d' : disk) (e : ending) :
  main readConfig args d = (d', e) ->
  match e with
  | Usage => args = [] /\ d' = d
  | Failed _ => args <> [] /\ d' = d
  | Generated out =>
      exists configPath rest config code,
        args = configPath :: rest
        /\ out = match rest with
                 | given :: _ => if given =? EmptyString then "server.js" else given
                 | [] => "server.js"
                 end
        /\ readConfig d configPath = Ok config
        /\ generate parseNodes generateServerCode config = Ok code
        /\ d' out = Some code
        /\ forall p, p <> out -> d' p = d p
  end.
Proof.
  unfold main. destruct args as [|configPath rest].
  - intros [= <- <-]. auto.
  - set (out := match rest with
                | given :: _ => if given =? EmptyString then "server.js" else given
                | [] => "server.js"
                end).
    unfold generateServerAt.
    destruct (readConfig d configPath) as [config|err] eqn:Hread; simpl.
    + destruct (generate parseNodes generateServerCode config) as [code|err]
        eqn:Hgen.
      * intros [= <- <-]. exists configPath, rest, config, code.
        repeat split; auto.
        -- unfold writeFile. now rewrite String.eqb_refl.
        -- intros p Hp. unfold writeFile.
           apply String.eqb_neq in Hp. now rewrite Hp.
      * intros [= <- <-]. split; [discriminate | reflexivity].
    + intros [= <- <-]. split; [discriminate | reflexivity].
Qed.

Lemma main_effect_witness :
  exists code,
    fst (main (fun _ _ => Ok (document userNodes)) ["config.json"] (fun _ => None))
        "server.js" = Some code
    /\ fst (main (fun _ _ => Ok (document userNodes)) ["config.json"] (fun _ => None))
           "config.json" = None.
Proof.
  pose proof (main_effect (fun _ _ => Ok (document userNodes)) ["config.json"]
                (fun _ => None) _ _ eq_refl) as H.
  simpl in H. destruct H as (cp & rest & config & code & _ & _ & _ & _ & Hw & Hf).
  exists code. split; [exact Hw|]. apply Hf. discriminate.
Defined.



